(** * Marker service (server.js): validation and persistence contract

    A shallow embedding of the two request handlers of [server.js]
    ([GET /markers], [POST /markers]) together with the part of the
    schema layer and of the document store that the handlers rely on:
    casting, setters, validators and defaults declared by [markerSchema],
    the unique compound index on the position pair, and the sort used by
    the listing.  Concurrent requests are a step relation that
    interleaves the handlers at their [await]s. *)

From Stdlib Require Import ZArith NArith List String Ascii Bool Lia.
From Stdlib Require Import Permutation Sorted DecimalString.
From Stdlib Require Import Floats.SpecFloat.
Import ListNotations.

Set Warnings "-register-all".
Local Open Scope string_scope.
Local Open Scope list_scope.
Local Open Scope Z_scope.

(* ================================================================== *)
(** ** JavaScript values *)

Module JS.

(** A JavaScript string is a sequence of UTF-16 code units. *)
Definition code_unit := N.
Definition jsstring := list code_unit.

(** Code units of an ASCII literal. *)
Definition lit (s : string) : jsstring :=
  map N_of_ascii (list_ascii_of_string s).

Definition code_unit_eqb (a b : code_unit) : bool := N.eqb a b.

Fixpoint jsstring_eqb (a b : jsstring) : bool :=
  match a, b with
  | [], [] => true
  | x :: a', y :: b' => code_unit_eqb x y && jsstring_eqb a' b'
  | _, _ => false
  end.

(** A JavaScript number is an IEEE 754 binary64 value. *)
Definition number := spec_float.

Definition prec : Z := 53.
Definition emax : Z := 1024.

(** The number denoted by an integer literal. *)
Definition num (z : Z) : number := binary_normalize prec emax z 0 false.

Definition isNaN (n : number) : bool :=
  match n with S754_nan => true | _ => false end.

(** [a < b], [a <= b], [a >= b] and [a == b] on numbers. *)
Definition lt (a b : number) : bool := SFltb a b.
Definition le (a b : number) : bool := SFleb a b.
Definition ge (a b : number) : bool := SFleb b a.
Definition eq (a b : number) : bool := SFeqb a b.

(** WhiteSpace and LineTerminator code units, the ones that
    [String.prototype.trim] strips. *)
Definition is_whitespace (c : code_unit) : bool :=
  match c with
  | 0x09 | 0x0A | 0x0B | 0x0C | 0x0D | 0x20 | 0xA0
  | 0x1680
  | 0x2000 | 0x2001 | 0x2002 | 0x2003 | 0x2004 | 0x2005
  | 0x2006 | 0x2007 | 0x2008 | 0x2009 | 0x200A
  | 0x2028 | 0x2029 | 0x202F | 0x205F | 0x3000 | 0xFEFF => true
  | _ => false
  end%N.

Fixpoint trimStart (s : jsstring) : jsstring :=
  match s with
  | [] => []
  | c :: s' => if is_whitespace c then trimStart s' else s
  end.

Definition trimEnd (s : jsstring) : jsstring := rev (trimStart (rev s)).

(** [String.prototype.trim]. *)
Definition trim (s : jsstring) : jsstring := trimEnd (trimStart s).

(** Values that [express.json] can put in a request body; [Undefined]
    stands for a property that is absent. *)
Inductive value :=
| Undefined
| Null
| Bool (b : bool)
| Num (n : number)
| Str (s : jsstring)
| Arr (items : list value)
| Obj (fields : list (jsstring * value)).

(** Property read [o[k]] on a parsed object. *)
Fixpoint get_field (k : jsstring) (fields : list (jsstring * value)) : value :=
  match fields with
  | [] => Undefined
  | (k', v) :: rest => if jsstring_eqb k k' then v else get_field k rest
  end.

End JS.
Import JS.


(* ================================================================== *)
(** ** Schema layer: errors, schema types and their options *)

(** The error recorded for one path of a document: a failed cast, or
    the first validator of the path that rejected the value. *)
Inductive path_error :=
| CastFailed (type : string) (val : value)
| ValidatorFailed (kind : string) (message : string).

Inductive outcome (A : Type) :=
| Returns (a : A)
| Throws (e : path_error).
Arguments Returns {A} a.
Arguments Throws {A} e.

(** Options of a [Number] path: [required], [min], [max], each with its
    message. *)
Record NumberOptions := {
  n_required : option string;
  n_min : option (number * string);
  n_max : option (number * string)
}.

(** Options of a [String] path: [required], [trim], [minlength],
    [maxlength]. *)
Record StringOptions := {
  s_required : option string;
  s_trim : bool;
  s_minlength : option (nat * string);
  s_maxlength : option (nat * string)
}.

(** [markerSchema] (server.js, lines 48-75).  The [createdAt] path has
    no option but its default, which is applied when the document is
    built. *)
Record Schema := {
  position_lat : NumberOptions;
  position_lng : NumberOptions;
  content_opts : StringOptions
}.

Definition markerSchema : Schema := {|
  position_lat := {|
    n_required := Some "纬度不能为空";
    n_min := Some (num (-90), "纬度不能小于-90");
    n_max := Some (num 90, "纬度不能大于90") |};
  position_lng := {|
    n_required := Some "经度不能为空";
    n_min := Some (num (-180), "经度不能小于-180");
    n_max := Some (num 180, "经度不能大于180") |};
  content_opts := {|
    s_required := Some "标注内容不能为空";
    s_trim := true;
    s_minlength := Some (1%nat, "内容至少需要1个字符");
    s_maxlength := Some (200%nat, "内容不能超过200个字符") |}
|}.

(** The errors of a rejected document, by path ([err.errors]). *)
Record Errors := {
  err_lat : option path_error;
  err_lng : option path_error;
  err_content : option path_error
}.

Definition no_errors (e : Errors) : bool :=
  match err_lat e, err_lng e, err_content e with
  | None, None, None => true
  | _, _, _ => false
  end.

(** What [err.message] says.  The text of a validation failure lists
    the entries of [err.errors] as [path: message]; it is kept here as
    the entries themselves. *)
Inductive message :=
| ValidationMessage (errors : Errors)
| DuplicateKeyMessage (index : string) (lat lng : number)
| DriverMessage (cause : string).

(** Errors thrown by [Marker.create] and [Marker.find]. *)
Inductive error :=
| ValidationError (errors : Errors)
| DuplicateKeyError (index : string) (lat lng : number)
| StoreError (cause : string).

Definition err_message (e : error) : message :=
  match e with
  | ValidationError errs => ValidationMessage errs
  | DuplicateKeyError idx la ln => DuplicateKeyMessage idx la ln
  | StoreError cause => DriverMessage cause
  end.

(* ================================================================== *)
(** ** Documents, the collection and responses *)

Definition ObjectId := N.

Record Position := { lat : number; lng : number }.

Record Marker := {
  _id : ObjectId;
  position : Position;
  content : jsstring;
  createdAt : Z;
  __v : Z
}.

(** The [markers] collection, in insertion order. *)
Definition Store := list Marker.

(** State of the connection to the database when a call reaches it. *)
Inductive Storage :=
| Up
| Down (cause : string).

(** What one request reads from its environment: the clock
    ([Date.now]), the identifier generator and the connection.
    Identifiers are taken as fresh, so the [_id_] index never rejects
    an insert and is left out of the collection's checks. *)
Record Env := {
  now : Z;
  oid : ObjectId;
  storage : Storage
}.

(** [const { lat, lng, content } = req.body]. *)
Record Body := {
  b_lat : value;
  b_lng : value;
  b_content : value
}.

(** JSON documents written by [res.json].  An identifier and a date
    are leaves: they are rendered as 24 hexadecimal digits and as an
    ISO-8601 string. *)
Inductive json :=
| JText (s : string)
| JString (s : jsstring)
| JNumber (n : number)
| JObjectId (o : ObjectId)
| JDate (ms : Z)
| JMessage (m : message)
| JArray (items : list json)
| JObject (fields : list (string * json)).

Record Response := {
  code : Z;
  body : json
}.

Fixpoint json_field (k : string) (fields : list (string * json)) : option json :=
  match fields with
  | [] => None
  | (k', v) :: rest => if String.eqb k k' then Some v else json_field k rest
  end.

Definition json_get (k : string) (j : json) : option json :=
  match j with
  | JObject fields => json_field k fields
  | _ => None
  end.

(* ================================================================== *)
(** ** The collection: unique index, insert, sorted listing *)

Definition same_position (p q : Position) : bool :=
  eq (lat p) (lat q) && eq (lng p) (lng q).

(** The index declared by
    [markerSchema.index({ 'position.lat': 1, 'position.lng': 1 }, { unique: true })]
    (line 78). *)
Definition index_name : string := "position.lat_1_position.lng_1".

Definition index_conflict (doc : Marker) (s : Store) : bool :=
  existsb (fun m => same_position (position m) (position doc)) s.

(** [insertOne]: one atomic step of the database.  The unique index is
    checked and the document added in that same step. *)
Definition insertOne (st : Storage) (doc : Marker) (s : Store)
  : (error + Marker) * Store :=
  match st with
  | Down cause => (inl (StoreError cause), s)
  | Up =>
      if index_conflict doc s then
        (inl (DuplicateKeyError index_name
                (lat (position doc)) (lng (position doc))), s)
      else (inr doc, s ++ [doc])
  end.

(** [sort('-createdAt')]: descending on [createdAt].  Documents with
    equal dates keep their insertion order here; the database promises
    no order among them. *)
Fixpoint insert_desc (m : Marker) (l : list Marker) : list Marker :=
  match l with
  | [] => [m]
  | x :: r =>
      if createdAt x <=? createdAt m then m :: l
      else x :: insert_desc m r
  end.

Fixpoint sort_desc (l : list Marker) : list Marker :=
  match l with
  | [] => []
  | m :: r => insert_desc m (sort_desc r)
  end.

(** [Marker.find().sort('-createdAt')]. *)
Definition find_sorted (st : Storage) (s : Store) : error + list Marker :=
  match st with
  | Down cause => inl (StoreError cause)
  | Up => inr (sort_desc s)
  end.

(** No document of the collection has the position of a later one. *)
Fixpoint unique_index (s : Store) : Prop :=
  match s with
  | [] => True
  | m :: r =>
      (forall m', In m' r ->
                  same_position (position m) (position m') = false)
      /\ unique_index r
  end.

(** Any two documents at different places of the collection differ in
    their position pair. *)
Definition distinct_positions (s : Store) : Prop :=
  forall i j m m',
    i <> j -> nth_error s i = Some m -> nth_error s j = Some m' ->
    same_position (position m) (position m') = false.

(** Number of documents at position [p]. *)
Definition count_at (p : Position) (s : Store) : nat :=
  List.length (filter (fun m => same_position (position m) p) s).

(** The order of the listing: the first of two is not older. *)
Definition newer_first (a b : Marker) : Prop := createdAt b <= createdAt a.

(** A document as [res.json] writes it: the stored fields, under their
    stored names.  (The order of the keys is not part of the model.) *)
Definition toJSON (m : Marker) : json :=
  JObject [
    ("_id", JObjectId (_id m));
    ("position", JObject [("lat", JNumber (lat (position m)));
                          ("lng", JNumber (lng (position m)))]);
    ("content", JString (content m));
    ("createdAt", JDate (createdAt m));
    ("__v", JNumber (num (__v m)))
  ].

(** The three kinds of response bodies that the handlers write. *)
Definition res_created (newMarker : Marker) : Response :=
  {| code := 201;
     body := JObject [("status", JText "success");
                      ("data", toJSON newMarker)] |}.

Definition res_fail (err : error) : Response :=
  {| code := 400;
     body := JObject [("status", JText "fail");
                      ("message", JMessage (err_message err))] |}.

Definition res_list (markers : list Marker) : Response :=
  {| code := 200;
     body := JObject [("status", JText "success");
                      ("data", JArray (map toJSON markers))] |}.

Definition res_error : Response :=
  {| code := 500;
     body := JObject [("status", JText "error");
                      ("message", JText "获取数据失败")] |}.

(** What a client reads in a marker of an answer: the identifier, the
    two coordinates, the content and the date, each under the key and
    with the kind of value it is written with. *)
Record MarkerView := {
  v_id : ObjectId;
  v_lat : number;
  v_lng : number;
  v_content : jsstring;
  v_createdAt : Z
}.

Definition view (m : Marker) : MarkerView :=
  {| v_id := _id m;
     v_lat := lat (position m);
     v_lng := lng (position m);
     v_content := content m;
     v_createdAt := createdAt m |}.

Definition read_marker (j : json) : option MarkerView :=
  match json_get "_id" j, json_get "position" j,
        json_get "content" j, json_get "createdAt" j with
  | Some (JObjectId i), Some p, Some (JString c), Some (JDate t) =>
      match json_get "lat" p, json_get "lng" p with
      | Some (JNumber la), Some (JNumber ln) =>
          Some {| v_id := i; v_lat := la; v_lng := ln;
                  v_content := c; v_createdAt := t |}
      | _, _ => None
      end
  | _, _, _, _ => None
  end.

(** The marker under [data] in the body of an answer. *)
Definition created_marker (r : Response) : option MarkerView :=
  match json_get "data" (body r) with
  | Some d => read_marker d
  | None => None
  end.

(** The markers under [data] in the body of an answer, in the order in
    which they are written; an item that is not a marker reads as
    [None]. *)
Definition listed_markers (r : Response) : option (list (option MarkerView)) :=
  match json_get "data" (body r) with
  | Some (JArray items) => Some (map read_marker items)
  | _ => None
  end.

(* ================================================================== *)
(** ** The schema pipeline and the two handlers *)

Section Server.

(** Two conversions of the JavaScript runtime are left to it:
    [Number(s)] on a string and [n.toString()] on a number. *)
Variable StringToNumber : jsstring -> number.
Variable NumberToString : number -> jsstring.

(** *** Casting *)

(** [castNumber]: [None] when one of its assertions fails. *)
Definition castNumber (val : value) : option (option number) :=
  match val with
  | Undefined | Null => Some None
  | Str [] => Some None
  | Str s =>
      let n := StringToNumber s in
      if isNaN n then None else Some (Some n)
  | Bool b => Some (Some (num (if b then 1 else 0)))
  | Num n => if isNaN n then None else Some (Some n)
  | Arr _ => None
  | Obj _ => None
  end.

(** [SchemaNumber.prototype.cast]: a value that carries an [_id] is
    replaced by it, then [castNumber] runs. *)
Definition SchemaNumber_cast (v : value) : outcome (option number) :=
  let val :=
    match v with
    | Obj fields =>
        match get_field (lit "_id") fields with
        | Undefined => v
        | id => id
        end
    | _ => v
    end in
  match castNumber val with
  | Some r => Returns r
  | None => Throws (CastFailed "Number" val)
  end.

(** [castString]: [toString] for strings, numbers and booleans, the
    [_id] of an object that has a non-empty string there. *)
Definition castString (v : value) : option (option jsstring) :=
  match v with
  | Undefined | Null => Some None
  | Str s => Some (Some s)
  | Num n => Some (Some (NumberToString n))
  | Bool b => Some (Some (lit (if b then "true" else "false")))
  | Arr _ => None
  | Obj fields =>
      match get_field (lit "_id") fields with
      | Str (c :: s) => Some (Some (c :: s))
      | _ => None
      end
  end.

Definition SchemaString_cast (v : value) : outcome (option jsstring) :=
  match castString v with
  | Some r => Returns r
  | None => Throws (CastFailed "string" v)
  end.

(** The setter installed by [trim: true]: a value that is not a
    string is cast first; a non-empty string is trimmed. *)
Definition trim_setter (v : value) : outcome value :=
  match SchemaString_cast v with
  | Throws e => Throws e
  | Returns None => Returns v
  | Returns (Some []) => Returns (Str [])
  | Returns (Some s) => Returns (Str (trim s))
  end.

(** [applySetters] on a [String] path: the setters, then the cast. *)
Definition String_applySetters (o : StringOptions) (v : value)
  : outcome (option jsstring) :=
  match (if s_trim o then trim_setter v else Returns v) with
  | Throws e => Throws e
  | Returns v' => SchemaString_cast v'
  end.

(** [applySetters] on a [Number] path: no setter, only the cast. *)
Definition Number_applySetters (o : NumberOptions) (v : value)
  : outcome (option number) :=
  SchemaNumber_cast v.

(** *** Validators *)

(** [doValidate] on a [Number] path: the validators run in the order
    [required], [min], [max]; the first that fails gives the error. *)
Definition Number_doValidate (o : NumberOptions) (v : option number)
  : option path_error :=
  match v with
  | None =>
      match n_required o with
      | Some msg => Some (ValidatorFailed "required" msg)
      | None => None
      end
  | Some n =>
      match n_min o with
      | Some (m, msg) =>
          if ge n m then
            match n_max o with
            | Some (M, msg') =>
                if le n M then None else Some (ValidatorFailed "max" msg')
            | None => None
            end
          else Some (ValidatorFailed "min" msg)
      | None =>
          match n_max o with
          | Some (M, msg') =>
              if le n M then None else Some (ValidatorFailed "max" msg')
          | None => None
          end
      end
  end.

(** [doValidate] on a [String] path: [required] (which also rejects
    the empty string), then [minlength], then [maxlength]. *)
Definition String_doValidate (o : StringOptions) (v : option jsstring)
  : option path_error :=
  let required :=
    match s_required o, v with
    | Some msg, None => Some (ValidatorFailed "required" msg)
    | Some msg, Some [] => Some (ValidatorFailed "required" msg)
    | _, _ => None
    end in
  match required, v with
  | Some e, _ => Some e
  | None, None => None
  | None, Some s =>
      let too_short :=
        match s_minlength o with
        | Some (n, msg) =>
            if (n <=? List.length s)%nat then None
            else Some (ValidatorFailed "minlength" msg)
        | None => None
        end in
      match too_short with
      | Some e => Some e
      | None =>
          match s_maxlength o with
          | Some (n, msg) =>
              if (List.length s <=? n)%nat then None
              else Some (ValidatorFailed "maxlength" msg)
          | None => None
          end
      end
  end.

(** One path of a new document: the value that was set, and the
    error of the path.  A failed cast leaves the path unset and is
    the error of the path; otherwise the validators decide. *)
Definition Number_path (o : NumberOptions) (v : value)
  : option number * option path_error :=
  match Number_applySetters o v with
  | Throws e => (None, Some e)
  | Returns x => (x, Number_doValidate o x)
  end.

Definition String_path (o : StringOptions) (v : value)
  : option jsstring * option path_error :=
  match String_applySetters o v with
  | Throws e => (None, Some e)
  | Returns x => (x, String_doValidate o x)
  end.

(** Validation of [{ position: { lat, lng }, content }] against
    [markerSchema]: every path is checked, the errors are gathered. *)
Definition validate (b : Body) : Errors :=
  {| err_lat := snd (Number_path (position_lat markerSchema) (b_lat b));
     err_lng := snd (Number_path (position_lng markerSchema) (b_lng b));
     err_content := snd (String_path (content_opts markerSchema) (b_content b)) |}.

(** [new Marker(...)] followed by the validation that [save] runs
    first: the document to insert, with its identifier, its
    [createdAt] default and its version key, or the validation
    error.  (A required path that passed validation holds a value.) *)
Definition build (env : Env) (b : Body) : error + Marker :=
  let errs := validate b in
  if no_errors errs then
    match fst (Number_path (position_lat markerSchema) (b_lat b)),
          fst (Number_path (position_lng markerSchema) (b_lng b)),
          fst (String_path (content_opts markerSchema) (b_content b)) with
    | Some la, Some ln, Some c =>
        inr {| _id := oid env;
               position := {| lat := la; lng := ln |};
               content := c;
               createdAt := now env;
               __v := 0 |}
    | _, _, _ => inl (ValidationError errs)
    end
  else inl (ValidationError errs).

(** [Marker.create]: build and validate, then insert. *)
Definition Marker_create (env : Env) (b : Body) (s : Store)
  : (error + Marker) * Store :=
  match build env b with
  | inl err => (inl err, s)
  | inr doc => insertOne (storage env) doc s
  end.

(** [app.post('/markers', ...)] (lines 126-145). *)
Definition post_markers (env : Env) (b : Body) (s : Store)
  : Response * Store :=
  match Marker_create env b s with
  | (inr newMarker, s') => (res_created newMarker, s')
  | (inl err, s') => (res_fail err, s')
  end.

(** [app.get('/markers', ...)] (lines 92-102). *)
Definition get_markers (st : Storage) (s : Store) : Response :=
  match find_sorted st s with
  | inr markers => res_list markers
  | inl _ => res_error
  end.

(** The stores that the service can reach from the empty collection
    (the only operation that writes is [POST /markers]). *)
Inductive reachable : Store -> Prop :=
| reach_empty : reachable []
| reach_post env b s :
    reachable s -> reachable (snd (post_markers env b s)).

(** *** Requests in flight

    Handlers of concurrent requests interleave at their [await]s.  A
    [POST] handler first builds and validates its document, which
    touches no shared state, and then awaits the insert, the one step
    that reads and writes the collection. *)
Inductive Handler :=
| Received (b : Body)
| Saving (doc : Marker)
| Responded (r : Response).

Definition after_build (r : error + Marker) : Handler :=
  match r with
  | inl err => Responded (res_fail err)
  | inr doc => Saving doc
  end.

Definition after_insert (r : error + Marker) : Handler :=
  match r with
  | inl err => Responded (res_fail err)
  | inr doc => Responded (res_created doc)
  end.

Inductive step : Store * list Handler -> Store * list Handler -> Prop :=
| step_build s hs1 hs2 env b :
    step (s, hs1 ++ Received b :: hs2)
         (s, hs1 ++ after_build (build env b) :: hs2)
| step_insert s hs1 hs2 doc :
    step (s, hs1 ++ Saving doc :: hs2)
         (snd (insertOne Up doc s),
          hs1 ++ after_insert (fst (insertOne Up doc s)) :: hs2).

Inductive steps : Store * list Handler -> Store * list Handler -> Prop :=
| steps_refl st : steps st st
| steps_step st1 st2 st3 : step st1 st2 -> steps st2 st3 -> steps st1 st3.

Definition responded (h : Handler) : bool :=
  match h with Responded _ => true | _ => false end.

Definition succeeded (h : Handler) : bool :=
  match h with Responded r => code r =? 201 | _ => false end.

Definition duplicate_key (h : Handler) : bool :=
  match h with
  | Responded {| code := 400;
                 body := JObject [("status", JText "fail");
                                  ("message", JMessage (DuplicateKeyMessage _ _ _))] |} => true
  | _ => false
  end.

(** Steps that a handler still has to take. *)
Definition pending (h : Handler) : nat :=
  match h with
  | Received _ => 2
  | Saving _ => 1
  | Responded _ => 0
  end.

Definition work (hs : list Handler) : nat := list_sum (map pending hs).

(** A request that is valid and aims at [p], whatever clock and
    identifier it gets. *)
Definition aims_at (p : Position) (b : Body) : Prop :=
  forall env, exists doc,
    build env b = inr doc /\ same_position (position doc) p = true.

(** What holds of every handler on the way. *)
Definition handler_ok (p : Position) (h : Handler) : Prop :=
  match h with
  | Received b => aims_at p b
  | Saving doc => same_position (position doc) p = true
  | Responded _ =>
      (succeeded h = true /\ duplicate_key h = false) \/
      (succeeded h = false /\ duplicate_key h = true)
  end.

Definition wins (hs : list Handler) : nat := List.length (filter succeeded hs).

(** What holds of the collection and the handlers together while [n]
    requests that aim at [p] are in flight. *)
Record race_invariant (p : Position) (n : nat) (st : Store * list Handler) : Prop := {
  race_length : List.length (snd st) = n;
  race_handlers : Forall (handler_ok p) (snd st);
  race_wins : wins (snd st) = count_at p (fst st);
  race_unique : (count_at p (fst st) <= 1)%nat;
  race_settled : existsb responded (snd st) = true -> count_at p (fst st) = 1%nat
}.

(** *** Requests one after the other *)

(** The handler of [POST /markers] run on a sequence of requests, each
    with what it reads from its environment: the answers, in order,
    and the collection at the end. *)
Fixpoint run_sequence (reqs : list (Env * Body)) (s : Store)
  : list Response * Store :=
  match reqs with
  | [] => ([], s)
  | (env, b) :: rest =>
      let (r, s') := post_markers env b s in
      let (rs, s'') := run_sequence rest s' in
      (r :: rs, s'')
  end.

(** The requests of [bs] whose handler in [hs] (same place) has
    answered, each with its answer. *)
Fixpoint answered (bs : list Body) (hs : list Handler)
  : list (Body * Response) :=
  match bs, hs with
  | b :: bs', Responded r :: hs' => (b, r) :: answered bs' hs'
  | _ :: bs', _ :: hs' => answered bs' hs'
  | _, _ => []
  end.

(** Handler [h] is a stage of the request [b]. *)
Definition stage_of (b : Body) (h : Handler) : Prop :=
  match h with
  | Received b' => b' = b
  | Saving doc => exists env, build env b = inr doc
  | Responded _ => True
  end.

(** The requests [bs], started on the collection [s0] and brought to
    the state [st] by some interleaving, as a sequence: the requests
    that have answered, put one after the other in some order with the
    storage up, leave the collection of [st] and get the same answers. *)
Definition serialized (bs : list Body) (s0 : Store)
           (st : Store * list Handler) : Prop :=
  Forall2 stage_of bs (snd st) /\
  exists reqs,
    Forall (fun q => storage (fst q) = Up) reqs /\
    snd (run_sequence reqs s0) = fst st /\
    Permutation (answered bs (snd st))
                (combine (map snd reqs) (fst (run_sequence reqs s0))).

End Server.

(* ================================================================== *)
(** ** A fragment of the runtime conversions

    [Number(s)] and [n.toString()] restricted to decimal integer
    literals; outside of them the fragment answers [NaN].  It is used to
    run the handlers on concrete requests. *)

Module Decimal.

Fixpoint digits (acc : Z) (s : jsstring) : option Z :=
  match s with
  | [] => Some acc
  | c :: r =>
      if ((48 <=? c) && (c <=? 57))%N
      then digits (10 * acc + (Z.of_N c - 48)) r
      else None
  end.

Definition StringToNumber (s : jsstring) : number :=
  match s with
  | [] => num 0
  | 45%N :: (_ :: _) as r =>
      match digits 0 r with
      | Some z => num (- z)
      | None => S754_nan
      end
  | _ =>
      match digits 0 s with
      | Some z => num z
      | None => S754_nan
      end
  end.

Definition integer_value (n : number) : option Z :=
  match n with
  | S754_zero _ => Some 0
  | S754_finite sign m e =>
      let z := if sign then Z.neg m else Z.pos m in
      if 0 <=? e then Some (z * 2 ^ e)
      else if z mod 2 ^ (- e) =? 0 then Some (z / 2 ^ (- e))
      else None
  | _ => None
  end.

Definition NumberToString (n : number) : jsstring :=
  match integer_value n with
  | Some z => lit (DecimalString.NilZero.string_of_int (Z.to_int z))
  | None => lit "NaN"
  end.

End Decimal.

(** [POST /markers] run with the fragment. *)
Definition post := post_markers Decimal.StringToNumber Decimal.NumberToString.

(** Sample requests. *)
Definition env_up (t : Z) (i : ObjectId) : Env :=
  {| now := t; oid := i; storage := Up |}.

Definition env_down (t : Z) (i : ObjectId) (cause : string) : Env :=
  {| now := t; oid := i; storage := Down cause |}.

Definition body_hello : Body :=
  {| b_lat := Num (num 45);
     b_lng := Num (num (-122));
     b_content := Str (lit " hello ") |}.

Definition store_hello : Store :=
  snd (post (env_up 1000 1%N) body_hello []).


Definition body_cast : Body :=
  {| b_lat := Str (lit "45");
     b_lng := Str (lit "-122");
     b_content := Num (num 7) |}.

Definition body_far : Body :=
  {| b_lat := Num (num 100);
     b_lng := Num (num 0);
     b_content := Str (lit "north of the pole") |}.

(** Two requests for the position (1, 1) and an interleaving of their
    handlers: both build, the second inserts first. *)
Definition body_one : Body :=
  {| b_lat := Num (num 1); b_lng := Num (num 1); b_content := Str (lit "a") |}.

Definition doc_one (env : Env) : Marker :=
  {| _id := oid env;
     position := {| lat := num 1; lng := num 1 |};
     content := lit "a";
     createdAt := now env;
     __v := 0 |}.

Definition race_start : Store * list Handler :=
  ([], map Received [body_one; body_one]).

Definition race_end : Store * list Handler :=
  ([doc_one (env_up 2 11%N)],
   [Responded (res_fail (DuplicateKeyError index_name (num 1) (num 1)));
    Responded (res_created (doc_one (env_up 2 11%N)))]).






(** The request [b] with another lat, lng or content. *)
Definition with_lat (v : value) (b : Body) : Body :=
  {| b_lat := v; b_lng := b_lng b; b_content := b_content b |}.

Definition with_lng (v : value) (b : Body) : Body :=
  {| b_lat := b_lat b; b_lng := v; b_content := b_content b |}.

Definition with_content (v : value) (b : Body) : Body :=
  {| b_lat := b_lat b; b_lng := b_lng b; b_content := v |}.

(** A run of white space. *)
Definition blank (l : jsstring) : Prop :=
  Forall (fun c => is_whitespace c = true) l.

(** [lo <= x <= hi] as the [min] and [max] validators test it. *)
Definition in_range (lo hi x : number) : bool := ge x lo && le x hi.

(** Number of answers 201 among [rs]. *)
Definition count_created (rs : list Response) : nat :=
  List.length (filter (fun r => code r =? 201) rs).

(** Each document is strictly older than the ones after it. *)
Definition older_first (a b : Marker) : Prop := createdAt a < createdAt b.

(** The environment [env] with the storage up. *)
Definition with_storage_up (env : Env) : Env :=
  {| now := now env; oid := oid env; storage := Up |}.

(** The collection after a second create, one second later. *)
Definition store_two : Store :=
  snd (post (env_up 2000 2%N) body_one store_hello).

(** Sample requests at the bounds of the schema. *)
Definition body_corner : Body :=
  {| b_lat := Num (num 90);
     b_lng := Num (num (-180));
     b_content := Str (lit "x") |}.

(** The collection after a third create, one more second later. *)
Definition store_three : Store :=
  snd (post (env_up 3000 3%N) body_corner store_two).

Definition body_blank : Body :=
  {| b_lat := Num (num 45);
     b_lng := Num (num (-122));
     b_content := Str (lit "   ") |}.

(* ================================================================== *)
(** ** The validator as section 4.1 of the specification words it

    Six checks in sequence, the first failure is the result; on success
    the normalized draft. *)

Definition spec_validator (b : Body) : string + (number * number * jsstring) :=
  match b_lat b with
  | Num la =>
      if ge la (num (-90)) && le la (num 90) then
        match b_lng b with
        | Num ln =>
            if ge ln (num (-180)) && le ln (num 180) then
              match b_content b with
              | Str c =>
                  let t := trim c in
                  if ((1 <=? List.length t) && (List.length t <=? 200))%nat
                  then inr (la, ln, t)
                  else inl "content length invalid"
              | _ => inl "content required"
              end
            else inl "longitude out of range"
        | _ => inl "longitude required"
        end
      else inl "latitude out of range"
  | _ => inl "latitude required"
  end.

(* ================================================================== *)
(** ** Numbers: facts about the comparisons *)

Lemma SFcompare_antisym (x y : number) (c : comparison) :
  SFcompare x y = Some c -> SFcompare y x = Some (CompOpp c).
Proof.
  destruct x as [sx|sx| |sx mx ex], y as [sy|sy| |sy my ey]; simpl;
    try discriminate;
    try (destruct sx); try (destruct sy);
    try (intros [= <-]; reflexivity).
  - intros [= <-]. rewrite (Z.compare_antisym ex ey).
    destruct (ex ?= ey); simpl; try reflexivity.
    rewrite CompOpp_involutive. f_equal.
    exact (Pos.compare_cont_antisym my mx Eq).
  - intros [= <-]. rewrite (Z.compare_antisym ex ey).
    destruct (ex ?= ey); simpl; try reflexivity.
    f_equal. symmetry. exact (Pos.compare_cont_antisym mx my Eq).
Qed.

Lemma eq_sym (a b : number) : eq a b = eq b a.
Proof.
  unfold eq, SFeqb.
  destruct (SFcompare a b) as [c|] eqn:E.
  - rewrite (SFcompare_antisym _ _ _ E). now destruct c.
  - destruct (SFcompare b a) as [c|] eqn:E'; [|reflexivity].
    apply SFcompare_antisym in E'. congruence.
Qed.

(** Numbers that compare equal are the same value, or both zeros. *)
Lemma eq_true (a b : number) :
  eq a b = true ->
  a = b \/ (exists s t, a = S754_zero s /\ b = S754_zero t).
Proof.
  unfold eq, SFeqb.
  destruct a as [sx|sx| |sx mx ex], b as [sy|sy| |sy my ey]; simpl;
    try discriminate;
    try (destruct sx); try (destruct sy); try discriminate;
    try (now left); try (right; eauto; fail).
  - destruct (ex ?= ey) eqn:E; try discriminate.
    apply Z.compare_eq in E.
    destruct (Pos.compare_cont Eq mx my) eqn:E'; try discriminate.
    apply Pos.compare_eq in E'. intros _. left. congruence.
  - destruct (ex ?= ey) eqn:E; try discriminate.
    apply Z.compare_eq in E.
    destruct (Pos.compare_cont Eq mx my) eqn:E'; try discriminate.
    apply Pos.compare_eq in E'. intros _. left. congruence.
Qed.

Lemma eq_trans (a b c : number) :
  eq a b = true -> eq b c = true -> eq a c = true.
Proof.
  intros Hab Hbc.
  destruct (eq_true _ _ Hab) as [->|(s & t & -> & ->)]; [assumption|].
  destruct (eq_true _ _ Hbc) as [<-|(s' & t' & _ & ->)]; [assumption|].
  reflexivity.
Qed.

Lemma lt_not_ge (a b : number) : lt a b = true -> ge a b = false.
Proof.
  unfold lt, ge, SFltb, SFleb.
  destruct (SFcompare a b) as [[]|] eqn:E; try discriminate.
  intros _. now rewrite (SFcompare_antisym _ _ _ E).
Qed.

Lemma lt_not_le (a b : number) : lt a b = true -> le b a = false.
Proof. exact (lt_not_ge a b). Qed.

Lemma same_position_sym (p q : Position) :
  same_position p q = same_position q p.
Proof.
  unfold same_position. now rewrite (eq_sym (lat p)), (eq_sym (lng p)).
Qed.

Lemma same_position_trans (p q r : Position) :
  same_position p q = true -> same_position q r = true ->
  same_position p r = true.
Proof.
  unfold same_position. rewrite !andb_true_iff.
  intros [A B] [C D]. split; eapply eq_trans; eassumption.
Qed.

(* ================================================================== *)
(** ** Strings: facts about [trim] *)

Lemma trimStart_idem (s : jsstring) : trimStart (trimStart s) = trimStart s.
Proof.
  induction s as [|c s IH]; simpl; [reflexivity|].
  destruct (is_whitespace c) eqn:E; [assumption|].
  simpl. now rewrite E.
Qed.

Lemma trimStart_snoc (s : jsstring) (c : code_unit) :
  is_whitespace c = false -> trimStart (s ++ [c]) = trimStart s ++ [c].
Proof.
  intros Hc. induction s as [|d s IH]; simpl.
  - now rewrite Hc.
  - destruct (is_whitespace d); [assumption|reflexivity].
Qed.

Lemma trimEnd_cons (c : code_unit) (s : jsstring) :
  is_whitespace c = false -> trimEnd (c :: s) = c :: trimEnd s.
Proof.
  intros Hc. unfold trimEnd. simpl.
  rewrite (trimStart_snoc _ _ Hc), rev_app_distr. reflexivity.
Qed.

Lemma trimEnd_idem (s : jsstring) : trimEnd (trimEnd s) = trimEnd s.
Proof.
  unfold trimEnd. now rewrite rev_involutive, trimStart_idem.
Qed.

(** A trimmed string does not start with white space. *)
Lemma trim_head (s : jsstring) :
  trim s = [] \/ exists c t, trim s = c :: t /\ is_whitespace c = false.
Proof.
  unfold trim.
  induction s as [|c s IH]; simpl; [now left|].
  destruct (is_whitespace c) eqn:E; [assumption|].
  right. rewrite (trimEnd_cons _ _ E). eauto.
Qed.

Lemma trim_idem (s : jsstring) : trim (trim s) = trim s.
Proof.
  destruct (trim_head s) as [H|(c & t & H & Hc)].
  - rewrite H. reflexivity.
  - unfold trim at 1. rewrite H. simpl. rewrite Hc.
    rewrite <- H. unfold trim. apply trimEnd_idem.
Qed.

Lemma trimStart_length (s : jsstring) :
  (List.length (trimStart s) <= List.length s)%nat.
Proof.
  induction s as [|c s IH]; simpl; [lia|].
  destruct (is_whitespace c); simpl; lia.
Qed.

Lemma trim_length (s : jsstring) :
  (List.length (trim s) <= List.length s)%nat.
Proof.
  unfold trim, trimEnd. rewrite length_rev.
  etransitivity; [apply trimStart_length|].
  rewrite length_rev. apply trimStart_length.
Qed.

Lemma trimStart_split (s : jsstring) :
  exists pre, s = pre ++ trimStart s /\ blank pre.
Proof.
  induction s as [|c s (pre & E & Hpre)]; simpl.
  - exists []. split; [reflexivity|constructor].
  - destruct (is_whitespace c) eqn:Hc.
    + exists (c :: pre). split; [simpl; congruence|now constructor].
    + exists []. split; [reflexivity|constructor].
Qed.

Lemma trimEnd_split (s : jsstring) :
  exists post, s = trimEnd s ++ post /\ blank post.
Proof.
  destruct (trimStart_split (rev s)) as (pre & E & Hpre).
  exists (rev pre). split; [|now apply Forall_rev].
  unfold trimEnd. rewrite <- rev_app_distr, <- E. now rewrite rev_involutive.
Qed.

Lemma trim_split (s : jsstring) :
  exists pre post, s = pre ++ trim s ++ post /\ blank pre /\ blank post.
Proof.
  destruct (trimStart_split s) as (pre & E & Hpre).
  destruct (trimEnd_split (trimStart s)) as (post & E' & Hpost).
  exists pre, post. unfold trim. repeat split; try assumption.
  now rewrite <- E'.
Qed.

Lemma trimStart_first (s : jsstring) (c : code_unit) (t : jsstring) :
  trimStart s = c :: t -> is_whitespace c = false.
Proof.
  induction s as [|d s IH]; simpl; [discriminate|].
  destruct (is_whitespace d) eqn:E; [assumption|].
  now intros [= <- _].
Qed.

Lemma trim_last (s : jsstring) (c : code_unit) (t : jsstring) :
  trim s = c :: t -> is_whitespace (last (trim s) c) = false.
Proof.
  unfold trim, trimEnd.
  destruct (trimStart (rev (trimStart s))) as [|d u] eqn:E; [discriminate|].
  intros _. simpl. rewrite last_last. eapply trimStart_first; eassumption.
Qed.

Example trim_hello : trim (lit " hello ") = lit "hello".
Proof. reflexivity. Qed.

Example trim_blank : trim (lit "   ") = [].
Proof. reflexivity. Qed.

(* ================================================================== *)
(** ** The unique index as an invariant of the collection *)


Lemma index_conflict_false (doc : Marker) (s : Store) :
  index_conflict doc s = false ->
  forall m, In m s -> same_position (position m) (position doc) = false.
Proof.
  unfold index_conflict. intros H m Hm.
  destruct (same_position (position m) (position doc)) eqn:E; [|reflexivity].
  assert (existsb (fun m => same_position (position m) (position doc)) s = true)
    by (apply existsb_exists; eauto).
  congruence.
Qed.

Lemma index_conflict_true (doc : Marker) (s : Store) :
  index_conflict doc s = true ->
  exists m, In m s /\ same_position (position m) (position doc) = true.
Proof. unfold index_conflict. intros H. now apply existsb_exists in H. Qed.

Lemma unique_index_snoc (s : Store) (doc : Marker) :
  unique_index s -> index_conflict doc s = false ->
  unique_index (s ++ [doc]).
Proof.
  intros Hu Hc. pose proof (index_conflict_false _ _ Hc) as Hf. clear Hc.
  induction s as [|m r IH]; simpl.
  - split; [intros ? []|exact I].
  - destruct Hu as [Hm Hr]. split.
    + intros m' Hin. apply in_app_or in Hin as [Hin|[<-|[]]].
      * now apply Hm.
      * apply Hf. now left.
    + apply IH; [assumption|]. intros x Hx. apply Hf. now right.
Qed.

Lemma unique_index_distinct (s : Store) :
  unique_index s -> distinct_positions s.
Proof.
  induction s as [|a r IH]; intros Hu i j m m' Hij Hi Hj.
  - destruct i; discriminate.
  - destruct Hu as [Ha Hr].
    destruct i as [|i], j as [|j]; simpl in Hi, Hj.
    + congruence.
    + injection Hi as <-. apply Ha. eapply nth_error_In; eassumption.
    + injection Hj as <-. rewrite same_position_sym.
      apply Ha. eapply nth_error_In; eassumption.
    + apply (IH Hr i j); congruence.
Qed.

Lemma count_at_none (p : Position) (s : Store) :
  (forall m, In m s -> same_position (position m) p = false) ->
  count_at p s = 0%nat.
Proof.
  unfold count_at. induction s as [|a r IH]; intros H; simpl; [reflexivity|].
  rewrite (H a (or_introl Logic.eq_refl)). apply IH.
  intros m Hm. apply H. now right.
Qed.

Lemma count_at_unique (p : Position) (s : Store) (m : Marker) :
  unique_index s -> In m s -> same_position (position m) p = true ->
  count_at p s = 1%nat.
Proof.
  induction s as [|a r IH]; intros Hu Hin Hp; [destruct Hin|].
  destruct Hu as [Ha Hr]. unfold count_at. simpl.
  destruct (same_position (position a) p) eqn:E.
  - simpl. f_equal. apply count_at_none. intros x Hx.
    destruct (same_position (position x) p) eqn:E'; [|reflexivity].
    rewrite same_position_sym in E'.
    rewrite <- (Ha x Hx). symmetry.
    eapply same_position_trans; eassumption.
  - destruct Hin as [->|Hin]; [congruence|].
    now apply IH.
Qed.

Lemma count_at_app (p : Position) (s t : Store) :
  count_at p (s ++ t) = (count_at p s + count_at p t)%nat.
Proof. unfold count_at. now rewrite filter_app, length_app. Qed.

(* ================================================================== *)
(** ** The sorted listing *)


Lemma insert_desc_perm (m : Marker) (l : list Marker) :
  Permutation (m :: l) (insert_desc m l).
Proof.
  induction l as [|x r IH]; simpl; [reflexivity|].
  destruct (createdAt x <=? createdAt m); [reflexivity|].
  rewrite perm_swap. now apply perm_skip.
Qed.

Lemma sort_desc_perm (l : list Marker) : Permutation l (sort_desc l).
Proof.
  induction l as [|m r IH]; simpl; [reflexivity|].
  rewrite <- insert_desc_perm. now apply perm_skip.
Qed.

Lemma insert_desc_sorted (m : Marker) (l : list Marker) :
  StronglySorted newer_first l -> StronglySorted newer_first (insert_desc m l).
Proof.
  induction 1 as [|x r Hr IH Hx]; simpl.
  - repeat constructor.
  - destruct (createdAt x <=? createdAt m) eqn:E.
    + apply Z.leb_le in E. constructor; [now constructor|].
      constructor; [exact E|].
      eapply Forall_impl; [|exact Hx].
      unfold newer_first. intros y Hy. lia.
    + apply Z.leb_gt in E. constructor; [assumption|].
      eapply Permutation_Forall; [apply insert_desc_perm|].
      constructor; [unfold newer_first; lia|assumption].
Qed.

Lemma sort_desc_sorted (l : list Marker) :
  StronglySorted newer_first (sort_desc l).
Proof.
  induction l as [|m r IH]; simpl; [constructor|].
  now apply insert_desc_sorted.
Qed.

Lemma sort_desc_three (d1 d2 d3 : Marker) :
  createdAt d1 < createdAt d2 -> createdAt d2 < createdAt d3 ->
  sort_desc [d1; d2; d3] = [d3; d2; d1].
Proof.
  intros H12 H23. simpl.
  destruct (createdAt d3 <=? createdAt d2) eqn:E32;
    [apply Z.leb_le in E32; lia|]. simpl.
  destruct (createdAt d3 <=? createdAt d1) eqn:E31;
    [apply Z.leb_le in E31; lia|].
  destruct (createdAt d2 <=? createdAt d1) eqn:E21;
    [apply Z.leb_le in E21; lia|].
  reflexivity.
Qed.

Lemma existsb_none {A : Type} (f : A -> bool) (l : list A) :
  (forall x, In x l -> f x = false) -> existsb f l = false.
Proof.
  induction l as [|a r IH]; intros H; simpl; [reflexivity|].
  rewrite (H a (or_introl Logic.eq_refl)). apply IH.
  intros x Hx. apply H. now right.
Qed.

(* ================================================================== *)
(** ** Reading the answers *)

Lemma read_marker_toJSON (m : Marker) : read_marker (toJSON m) = Some (view m).
Proof. reflexivity. Qed.

Lemma created_res_created (doc : Marker) :
  created_marker (res_created doc) = Some (view doc).
Proof. reflexivity. Qed.

Lemma listed_res_list (l : list Marker) :
  listed_markers (res_list l) = Some (map (fun m => Some (view m)) l).
Proof.
  unfold listed_markers, res_list. cbn [body json_get json_field String.eqb Ascii.eqb Bool.eqb].
  f_equal. rewrite map_map. apply map_ext. intros m. apply read_marker_toJSON.
Qed.

Lemma get_markers_up (s : Store) : get_markers Up s = res_list (sort_desc s).
Proof. reflexivity. Qed.

(* ================================================================== *)
(** ** The validators of [markerSchema] on given values *)

Ltac by_cases_on x :=
  destruct x as [[]|[]| |[] ? ?]; try discriminate; try reflexivity.

Lemma lt_not_nan (a b : number) : lt a b = true -> isNaN a = false.
Proof. now destruct a. Qed.

Lemma gt_not_nan (a b : number) : lt a b = true -> isNaN b = false.
Proof. destruct a, b; try discriminate; reflexivity. Qed.

Lemma above_90 (x : number) : lt (num 90) x = true -> ge x (num (-90)) = true.
Proof. by_cases_on x. Qed.

Lemma above_180 (x : number) : lt (num 180) x = true -> ge x (num (-180)) = true.
Proof. by_cases_on x. Qed.

Section Paths.

Variable StN : jsstring -> number.
Variable NtS : number -> jsstring.

Lemma lat_below (x : number) :
  lt x (num (-90)) = true ->
  Number_path StN (position_lat markerSchema) (Num x)
  = (Some x, Some (ValidatorFailed "min" "纬度不能小于-90")).
Proof.
  intros H. unfold Number_path, Number_applySetters, SchemaNumber_cast, castNumber.
  rewrite (lt_not_nan _ _ H). unfold Number_doValidate.
  cbn [position_lat markerSchema n_min n_max n_required].
  now rewrite (lt_not_ge _ _ H).
Qed.

Lemma lat_above (x : number) :
  lt (num 90) x = true ->
  Number_path StN (position_lat markerSchema) (Num x)
  = (Some x, Some (ValidatorFailed "max" "纬度不能大于90")).
Proof.
  intros H. unfold Number_path, Number_applySetters, SchemaNumber_cast, castNumber.
  rewrite (gt_not_nan _ _ H). unfold Number_doValidate.
  cbn [position_lat markerSchema n_min n_max n_required].
  now rewrite (above_90 _ H), (lt_not_le _ _ H).
Qed.

Lemma lng_below (x : number) :
  lt x (num (-180)) = true ->
  Number_path StN (position_lng markerSchema) (Num x)
  = (Some x, Some (ValidatorFailed "min" "经度不能小于-180")).
Proof.
  intros H. unfold Number_path, Number_applySetters, SchemaNumber_cast, castNumber.
  rewrite (lt_not_nan _ _ H). unfold Number_doValidate.
  cbn [position_lng markerSchema n_min n_max n_required].
  now rewrite (lt_not_ge _ _ H).
Qed.

Lemma lng_above (x : number) :
  lt (num 180) x = true ->
  Number_path StN (position_lng markerSchema) (Num x)
  = (Some x, Some (ValidatorFailed "max" "经度不能大于180")).
Proof.
  intros H. unfold Number_path, Number_applySetters, SchemaNumber_cast, castNumber.
  rewrite (gt_not_nan _ _ H). unfold Number_doValidate.
  cbn [position_lng markerSchema n_min n_max n_required].
  now rewrite (above_180 _ H), (lt_not_le _ _ H).
Qed.

(** A content that passes is trimmed, has 1 to 200 code units, and is
    the trimmed input when the input is a string. *)
Lemma content_path_ok (v : value) (c : jsstring) :
  String_path NtS (content_opts markerSchema) v = (Some c, None) ->
  (1 <= List.length c <= 200)%nat /\ trim c = c /\
  (forall cs, v = Str cs -> c = trim cs).
Proof.
  unfold String_path, String_applySetters, trim_setter, SchemaString_cast.
  cbn [content_opts markerSchema s_trim].
  destruct (castString NtS v) as [[t|]|] eqn:Hv.
  - assert (Hstr : forall cs, v = Str cs -> t = cs).
    { intros cs ->. cbn in Hv. congruence. }
    destruct t as [|a t].
    + cbn. discriminate.
    + cbn [castString]. unfold String_doValidate.
      cbn [content_opts markerSchema s_required s_minlength s_maxlength].
      destruct (trim (a :: t)) as [|a' t'] eqn:Ht; [discriminate|].
      destruct (1 <=? List.length (a' :: t'))%nat eqn:Hmin; [|discriminate].
      destruct (List.length (a' :: t') <=? 200)%nat eqn:Hmax; [|discriminate].
      intros [= <-].
      apply Nat.leb_le in Hmin, Hmax. repeat split; try assumption.
      * rewrite <- Ht. apply trim_idem.
      * intros cs Hcs. now rewrite <- (Hstr cs Hcs).
  - rewrite Hv. cbn. discriminate.
  - discriminate.
Qed.

(** A non-empty string in a [Number] path stands for [Number(s)], a
    number in a [String] path for its [toString()]. *)
Lemma Number_path_string (o : NumberOptions) (s : jsstring) (n : number) :
  s <> [] -> StN s = n -> isNaN n = false ->
  Number_path StN o (Str s) = (Some n, Number_doValidate o (Some n)).
Proof.
  intros Hs Hn Hnan. destruct s as [|c s]; [congruence|].
  unfold Number_path, Number_applySetters, SchemaNumber_cast, castNumber.
  now rewrite Hn, Hnan.
Qed.

Lemma String_path_number (o : StringOptions) (n : number) :
  String_path NtS o (Num n) = String_path NtS o (Str (NtS n)).
Proof.
  unfold String_path, String_applySetters, trim_setter, SchemaString_cast.
  destruct (s_trim o); reflexivity.
Qed.

(** A content that passes begins and ends with a code unit that is
    not white space. *)
Lemma content_path_edges (v : value) (c : jsstring) :
  String_path NtS (content_opts markerSchema) v = (Some c, None) ->
  exists a t, c = a :: t /\ is_whitespace a = false /\
              is_whitespace (last c a) = false.
Proof.
  intros H. apply content_path_ok in H as (Hlen & Htrim & _).
  destruct c as [|a t]; [cbn in Hlen; lia|].
  exists a, t. split; [reflexivity|]. split.
  - destruct (trim_head (a :: t)) as [H0|(a' & t' & H1 & Ha')];
      rewrite Htrim in *; [discriminate|].
    injection H1 as -> _. exact Ha'.
  - pose proof (trim_last (a :: t) a t Htrim) as Hlast.
    now rewrite Htrim in Hlast.
Qed.

End Paths.

(* ================================================================== *)
(** ** What [build] and [POST /markers] return *)

Section Unfolding.

Variable StN : jsstring -> number.
Variable NtS : number -> jsstring.

Lemma build_inl (env : Env) (b : Body) (e : error) :
  build StN NtS env b = inl e -> e = ValidationError (validate StN NtS b).
Proof.
  unfold build. destruct (no_errors _).
  - destruct (fst (Number_path StN (position_lat markerSchema) (b_lat b))),
      (fst (Number_path StN (position_lng markerSchema) (b_lng b))),
      (fst (String_path NtS (content_opts markerSchema) (b_content b)));
      congruence.
  - congruence.
Qed.

Lemma build_inr (env : Env) (b : Body) (doc : Marker) :
  build StN NtS env b = inr doc ->
  Number_path StN (position_lat markerSchema) (b_lat b)
    = (Some (lat (position doc)), None) /\
  Number_path StN (position_lng markerSchema) (b_lng b)
    = (Some (lng (position doc)), None) /\
  String_path NtS (content_opts markerSchema) (b_content b)
    = (Some (content doc), None) /\
  _id doc = oid env /\ createdAt doc = now env /\ __v doc = 0.
Proof.
  unfold build, no_errors, validate.
  cbn [err_lat err_lng err_content].
  destruct (Number_path StN (position_lat markerSchema) (b_lat b)) as [x ex],
    (Number_path StN (position_lng markerSchema) (b_lng b)) as [y ey],
    (String_path NtS (content_opts markerSchema) (b_content b)) as [c ec].
  cbn [fst snd].
  destruct ex, ey, ec; try discriminate.
  destruct x, y, c; try discriminate.
  intros [= <-]. cbn. repeat split.
Qed.

Lemma post_markers_eq (env : Env) (b : Body) (s : Store) :
  post_markers StN NtS env b s =
  match build StN NtS env b with
  | inl err => (res_fail err, s)
  | inr doc =>
      match storage env with
      | Down cause => (res_fail (StoreError cause), s)
      | Up =>
          if index_conflict doc s then
            (res_fail (DuplicateKeyError index_name
                         (lat (position doc)) (lng (position doc))), s)
          else (res_created doc, s ++ [doc])
      end
  end.
Proof.
  unfold post_markers, Marker_create, insertOne.
  destruct (build StN NtS env b) as [err|doc]; [reflexivity|].
  destruct (storage env); [|reflexivity].
  destruct (index_conflict doc s); reflexivity.
Qed.

Lemma build_invalid (env : Env) (b : Body) :
  no_errors (validate StN NtS b) = false ->
  build StN NtS env b = inl (ValidationError (validate StN NtS b)).
Proof. unfold build. now intros ->. Qed.

Lemma err_lat_validate (b : Body) :
  err_lat (validate StN NtS b)
  = snd (Number_path StN (position_lat markerSchema) (b_lat b)).
Proof. reflexivity. Qed.

Lemma err_lng_validate (b : Body) :
  err_lng (validate StN NtS b)
  = snd (Number_path StN (position_lng markerSchema) (b_lng b)).
Proof. reflexivity. Qed.


Lemma no_errors_false (e : Errors) :
  (exists x, err_lat e = Some x) \/ (exists x, err_lng e = Some x) \/
  (exists x, err_content e = Some x) ->
  no_errors e = false.
Proof.
  unfold no_errors.
  intros [(x & ->)|[(x & ->)|(x & ->)]]; [reflexivity| |].
  - now destruct (err_lat e).
  - now destruct (err_lat e), (err_lng e).
Qed.

Lemma build_valid (env : Env) (b : Body) (la ln : number) (c : jsstring) :
  Number_path StN (position_lat markerSchema) (b_lat b) = (Some la, None) ->
  Number_path StN (position_lng markerSchema) (b_lng b) = (Some ln, None) ->
  String_path NtS (content_opts markerSchema) (b_content b) = (Some c, None) ->
  build StN NtS env b
  = inr {| _id := oid env;
           position := {| lat := la; lng := ln |};
           content := c;
           createdAt := now env;
           __v := 0 |}.
Proof.
  intros Hla Hln Hc. unfold build, validate, no_errors.
  cbn [err_lat err_lng err_content]. now rewrite Hla, Hln, Hc.
Qed.

End Unfolding.

(* ================================================================== *)
(** ** Properties of the handlers *)

Section Properties.

Variable StringToNumber : jsstring -> number.
Variable NumberToString : number -> jsstring.

Local Abbreviation validate := (validate StringToNumber NumberToString).
Local Abbreviation build := (build StringToNumber NumberToString).
Local Abbreviation post_markers := (post_markers StringToNumber NumberToString).
Local Abbreviation reachable := (reachable StringToNumber NumberToString).
Local Abbreviation step := (step StringToNumber NumberToString).
Local Abbreviation steps := (steps StringToNumber NumberToString).

(** A request either leaves the collection as it was or appends the
    document that it built. *)
Lemma post_markers_store (env : Env) (b : Body) (s : Store) :
  snd (post_markers env b s) = s \/
  exists doc, build env b = inr doc /\ index_conflict doc s = false /\
              post_markers env b s = (res_created doc, s ++ [doc]).
Proof.
  rewrite post_markers_eq.
  destruct (build env b) as [err|doc]; [now left|].
  destruct (storage env); [|now left].
  destruct (index_conflict doc s) eqn:E; [now left|].
  right. eauto.
Qed.

Lemma post_markers_created (env : Env) (b : Body) (s s' : Store) (r : Response) :
  post_markers env b s = (r, s') -> code r = 201 ->
  exists doc, build env b = inr doc /\ index_conflict doc s = false /\
              r = res_created doc /\ s' = s ++ [doc].
Proof.
  rewrite post_markers_eq.
  destruct (build env b) as [err|doc].
  - intros [= <- <-]. discriminate.
  - destruct (storage env).
    + destruct (index_conflict doc s) eqn:E.
      * intros [= <- <-]. discriminate.
      * intros [= <- <-] _. eauto.
    + intros [= <- <-]. discriminate.
Qed.

Lemma reachable_unique_index (s : Store) : reachable s -> unique_index s.
Proof.
  induction 1 as [|env b s Hs IH]; [exact I|].
  destruct (post_markers_store env b s) as [->|(doc & _ & Hc & ->)];
    [assumption|].
  simpl. now apply unique_index_snoc.
Qed.

(** C1. In every store that the service can reach, any two stored
    markers differ in their (lat, lng) pair; and when a marker already
    holds the position of a valid new document, the create answers 400
    with the duplicate-key error of the position index, inserts
    nothing, and the store holds exactly one record at that position. *)
Theorem C1_unique_position (s : Store) :
  reachable s ->
  distinct_positions s /\
  (forall env b doc,
      build env b = inr doc -> storage env = Up ->
      index_conflict doc s = true ->
      post_markers env b s =
        (res_fail (DuplicateKeyError index_name
                     (lat (position doc)) (lng (position doc))), s)
      /\ count_at (position doc) s = 1%nat).
Proof.
  intros Hs. pose proof (reachable_unique_index s Hs) as Hu. split.
  - now apply unique_index_distinct.
  - intros env b doc Hb Hup Hc. split.
    + rewrite post_markers_eq, Hb, Hup, Hc. reflexivity.
    + destruct (index_conflict_true _ _ Hc) as (m & Hin & Hm).
      eapply count_at_unique; eassumption.
Qed.

(** C2. When the lat of the request is a number outside [-90, 90], or
    its lng a number outside [-180, 180], the create answers 400 with
    the validation error, whose entry for that field is the error of
    the bound that is crossed (min or max, with its own message), and
    the store is left as it was. *)
Theorem C2_range_rejected (env : Env) (b : Body) (s : Store) :
  (exists x, b_lat b = Num x /\
             (lt x (num (-90)) = true \/ lt (num 90) x = true)) \/
  (exists x, b_lng b = Num x /\
             (lt x (num (-180)) = true \/ lt (num 180) x = true)) ->
  exists errs,
    post_markers env b s = (res_fail (ValidationError errs), s) /\
    (forall x, b_lat b = Num x -> lt x (num (-90)) = true ->
       err_lat errs = Some (ValidatorFailed "min" "纬度不能小于-90")) /\
    (forall x, b_lat b = Num x -> lt (num 90) x = true ->
       err_lat errs = Some (ValidatorFailed "max" "纬度不能大于90")) /\
    (forall x, b_lng b = Num x -> lt x (num (-180)) = true ->
       err_lng errs = Some (ValidatorFailed "min" "经度不能小于-180")) /\
    (forall x, b_lng b = Num x -> lt (num 180) x = true ->
       err_lng errs = Some (ValidatorFailed "max" "经度不能大于180")).
Proof.
  intros H. exists (validate b). split.
  - rewrite post_markers_eq, build_invalid; [reflexivity|].
    apply no_errors_false.
    rewrite err_lat_validate, err_lng_validate.
    destruct H as [(x & Hx & [Hlo|Hhi])|(x & Hx & [Hlo|Hhi])]; rewrite Hx.
    + left. rewrite lat_below by assumption. cbn [snd]. eauto.
    + left. rewrite lat_above by assumption. cbn [snd]. eauto.
    + right; left. rewrite lng_below by assumption. cbn [snd]. eauto.
    + right; left. rewrite lng_above by assumption. cbn [snd]. eauto.
  - rewrite err_lat_validate, err_lng_validate.
    repeat split; intros x -> Hx.
    + now rewrite lat_below.
    + now rewrite lat_above.
    + now rewrite lng_below.
    + now rewrite lng_above.
Qed.

(** C3. When the content of the request is a string and the create
    succeeds, the stored content, which is also the content written in
    the answer, is that string with the white space at its two ends
    removed: the string is a run of white space, the stored content, a
    run of white space, and the stored content begins and ends with a
    code unit that is not white space; its length lies in [1, 200].
    And in every store that the service can reach, the content of each
    marker has 1 to 200 code units, begins and ends with a code unit
    that is not white space, and is left as it is by trimming. *)
Theorem C3_content_trimmed :
  (forall env b s r s' cs,
      b_content b = Str cs ->
      post_markers env b s = (r, s') -> code r = 201 ->
      exists doc pre post,
        r = res_created doc /\ s' = s ++ [doc] /\
        content doc = trim cs /\
        (1 <= List.length (trim cs) <= 200)%nat /\
        cs = pre ++ content doc ++ post /\ blank pre /\ blank post /\
        (exists c t, content doc = c :: t /\
                     is_whitespace c = false /\
                     is_whitespace (last (content doc) c) = false) /\
        (exists v, created_marker r = Some v /\ v_content v = content doc)) /\
  (forall s,
      reachable s ->
      Forall (fun m => trim (content m) = content m /\
                       trim (content m) <> [] /\
                       (1 <= List.length (content m) <= 200)%nat /\
                       (exists c t, content m = c :: t /\
                                    is_whitespace c = false /\
                                    is_whitespace (last (content m) c) = false))
             s).
Proof.
  split.
  - intros env b s r s' cs Hcs Hpost Hcode.
    destruct (post_markers_created _ _ _ _ _ Hpost Hcode)
      as (doc & Hb & _ & -> & ->).
    apply build_inr in Hb as (_ & _ & Hc & _).
    pose proof (content_path_edges _ _ _ Hc) as Hedges.
    apply content_path_ok in Hc as (Hlen & _ & Htrim).
    destruct (trim_split cs) as (pre & post & E & Hpre & Hpost').
    exists doc, pre, post. rewrite <- (Htrim cs Hcs).
    repeat split; try assumption; try apply Hlen.
    + now rewrite (Htrim cs Hcs).
    + exists (view doc). split; [apply created_res_created|reflexivity].
  - induction 1 as [|env b s Hs IH]; [constructor|].
    destruct (post_markers_store env b s) as [->|(doc & Hb & _ & ->)];
      [assumption|].
    cbn [snd]. apply Forall_app. split; [assumption|].
    constructor; [|constructor].
    apply build_inr in Hb as (_ & _ & Hc & _).
    pose proof (content_path_edges _ _ _ Hc) as Hedges.
    apply content_path_ok in Hc as (Hlen & Htrim & _).
    rewrite Htrim. repeat split; try apply Hlen; try assumption.
    intros E. rewrite E in Hlen. cbn in Hlen. lia.
Qed.

(** C4. With the storage up, [GET /markers] answers 200 and the
    markers read under [data] in its body are exactly the stored
    records (a permutation of the collection), written in descending
    order of [createdAt]; and after three creations from the empty
    store at times t1 < t2 < t3 the markers read in the body are the
    third, the second and the first, in that order. *)
Theorem C4_list_sorted :
  (forall s,
      exists l, get_markers Up s = res_list l /\
                code (get_markers Up s) = 200 /\
                listed_markers (get_markers Up s)
                = Some (map (fun m => Some (view m)) l) /\
                Permutation s l /\ StronglySorted newer_first l) /\
  (forall e1 e2 e3 b1 b2 b3 r1 r2 r3 s1 s2 s3,
      post_markers e1 b1 [] = (r1, s1) ->
      post_markers e2 b2 s1 = (r2, s2) ->
      post_markers e3 b3 s2 = (r3, s3) ->
      code r1 = 201 -> code r2 = 201 -> code r3 = 201 ->
      now e1 < now e2 -> now e2 < now e3 ->
      exists d1 d2 d3,
        r1 = res_created d1 /\ r2 = res_created d2 /\ r3 = res_created d3 /\
        created_marker r1 = Some (view d1) /\
        created_marker r2 = Some (view d2) /\
        created_marker r3 = Some (view d3) /\
        createdAt d1 = now e1 /\ createdAt d2 = now e2 /\
        createdAt d3 = now e3 /\
        get_markers Up s3 = res_list [d3; d2; d1] /\
        code (get_markers Up s3) = 200 /\
        listed_markers (get_markers Up s3)
        = Some [Some (view d3); Some (view d2); Some (view d1)]).
Proof.
  split.
  - intros s. exists (sort_desc s). rewrite get_markers_up.
    repeat split.
    + apply listed_res_list.
    + apply sort_desc_perm.
    + apply sort_desc_sorted.
  - intros e1 e2 e3 b1 b2 b3 r1 r2 r3 s1 s2 s3 P1 P2 P3 K1 K2 K3 T12 T23.
    destruct (post_markers_created _ _ _ _ _ P1 K1) as (d1 & B1 & _ & -> & ->).
    destruct (post_markers_created _ _ _ _ _ P2 K2) as (d2 & B2 & _ & -> & ->).
    destruct (post_markers_created _ _ _ _ _ P3 K3) as (d3 & B3 & _ & -> & ->).
    apply build_inr in B1 as (_ & _ & _ & _ & T1 & _).
    apply build_inr in B2 as (_ & _ & _ & _ & T2 & _).
    apply build_inr in B3 as (_ & _ & _ & _ & T3 & _).
    assert (Hget : get_markers Up ((([] ++ [d1]) ++ [d2]) ++ [d3])
                   = res_list [d3; d2; d1]).
    { rewrite get_markers_up. cbn [app].
      now rewrite sort_desc_three by lia. }
    exists d1, d2, d3. rewrite Hget.
    repeat split; try assumption.
Qed.

(** C5, on the code: a failure of the storage is answered 500 with the
    fixed text by [GET /markers], but [POST /markers] never answers
    500: its handler answers 400 and puts the text of the driver's
    error in the body. *)
Theorem C5_post_store_failure :
  (forall s cause, get_markers (Down cause) s = res_error) /\
  (forall env b s, code (fst (post_markers env b s)) = 201 \/
                   code (fst (post_markers env b s)) = 400) /\
  (forall env b s doc cause,
      build env b = inr doc -> storage env = Down cause ->
      post_markers env b s =
        ({| code := 400;
            body := JObject [("status", JText "fail");
                             ("message", JMessage (DriverMessage cause))] |},
         s)) /\
  (forall s cause,
      post_markers (env_down 1000 1%N cause) body_hello s =
        ({| code := 400;
            body := JObject [("status", JText "fail");
                             ("message", JMessage (DriverMessage cause))] |},
         s)).
Proof.
  repeat split.
  - intros env b s. rewrite post_markers_eq.
    destruct (build env b); [now right|].
    destruct (storage env); [|now right].
    destruct (index_conflict m s); [now right|now left].
  - intros env b s doc cause Hb Hdown.
    now rewrite post_markers_eq, Hb, Hdown.
Qed.

(** C7. With the storage up and the position (45, -122) free, creating
    a marker from lat 45.0, lng -122.0 and content " hello " succeeds
    and answers the marker at (45, -122) with the content "hello"; the
    listing of the resulting store then answers 200, and among the
    markers read under [data] in its body is that marker, at position
    (45, -122) with the content "hello". *)
Theorem C7_round_trip (env : Env) (s : Store) :
  storage env = Up ->
  (forall m, In m s ->
     same_position (position m) {| lat := num 45; lng := num (-122) |} = false) ->
  exists doc l,
    post_markers env body_hello s = (res_created doc, s ++ [doc]) /\
    position doc = {| lat := num 45; lng := num (-122) |} /\
    content doc = lit "hello" /\
    get_markers Up (s ++ [doc]) = res_list l /\ In doc l /\
    created_marker (fst (post_markers env body_hello s))
    = Some {| v_id := oid env; v_lat := num 45; v_lng := num (-122);
              v_content := lit "hello"; v_createdAt := now env |} /\
    code (get_markers Up (s ++ [doc])) = 200 /\
    exists items,
      listed_markers (get_markers Up (s ++ [doc])) = Some items /\
      In (Some {| v_id := oid env; v_lat := num 45; v_lng := num (-122);
                  v_content := lit "hello"; v_createdAt := now env |}) items.
Proof.
  intros Hup Hfree.
  set (doc := {| _id := oid env;
                 position := {| lat := num 45; lng := num (-122) |};
                 content := lit "hello";
                 createdAt := now env;
                 __v := 0 |}).
  assert (Hpost : post_markers env body_hello s = (res_created doc, s ++ [doc])).
  { rewrite post_markers_eq.
    change (build env body_hello) with (inr (B := Marker) (A := error) doc).
    rewrite Hup. unfold index_conflict. cbn [position doc].
    now rewrite (existsb_none _ _ Hfree). }
  assert (Hin : In doc (sort_desc (s ++ [doc]))).
  { eapply Permutation_in; [apply sort_desc_perm|].
    apply in_or_app. right. now left. }
  exists doc, (sort_desc (s ++ [doc])). rewrite Hpost, get_markers_up.
  repeat split; try assumption.
  exists (map (fun m => Some (view m)) (sort_desc (s ++ [doc]))).
  split; [apply listed_res_list|].
  exact (in_map (fun m => Some (view m)) _ _ Hin).
Qed.


(** C8, as the code has it. The marker of a successful [POST /markers]
    and each marker of a successful [GET /markers] is written with the
    fields [_id], [position], [content], [createdAt] and [__v], and no
    other; [position] holds [lat] and [lng]. *)
Theorem C8_marker_shape :
  (forall env b s r s',
      post_markers env b s = (r, s') -> code r = 201 ->
      exists m, json_get "data" (body r) = Some (toJSON m)) /\
  (forall s, exists l,
      json_get "data" (body (get_markers Up s)) = Some (JArray (map toJSON l))) /\
  (forall m k,
      json_get k (toJSON m) <> None <->
      In k ["_id"; "position"; "content"; "createdAt"; "__v"]) /\
  (forall m, exists p,
      json_get "position" (toJSON m) = Some p /\
      forall k, json_get k p <> None <-> In k ["lat"; "lng"]).
Proof.
  repeat match goal with |- _ /\ _ => split end.
  - intros env b s r s' Hpost Hcode.
    destruct (post_markers_created _ _ _ _ _ Hpost Hcode)
      as (doc & _ & _ & -> & _).
    now exists doc.
  - intros s. now exists (sort_desc s).
  - intros m k. unfold toJSON, json_get. cbn [json_field In].
    repeat match goal with
           | |- context [String.eqb k ?x] =>
               destruct (String.eqb_spec k x) as [->|?]
           end;
      split; intros H; try congruence; try (now intuition eauto);
      try (intuition congruence).
  - intros m. eexists. split; [reflexivity|].
    intros k. unfold json_get. cbn [json_field In].
    repeat match goal with
           | |- context [String.eqb k ?x] =>
               destruct (String.eqb_spec k x) as [->|?]
           end;
      split; intros H; try congruence; try (now intuition eauto);
      try (intuition congruence).
Qed.

(** C10. A request whose lat and lng are the numeric strings "45" and
    "-122" and whose content is the number 7 is accepted: with a
    runtime where [Number("45")] is 45, [Number("-122")] is -122 and
    [(7).toString()] is "7", the create on the empty store succeeds and
    the stored marker holds the numbers 45 and -122 and the string "7",
    whereas the validator of the specification rejects that request
    at its first check. *)
Theorem C10_cast_accepted (env : Env) :
  StringToNumber (lit "45") = num 45 ->
  StringToNumber (lit "-122") = num (-122) ->
  NumberToString (num 7) = lit "7" ->
  storage env = Up ->
  exists doc,
    post_markers env body_cast [] = (res_created doc, [doc]) /\
    position doc = {| lat := num 45; lng := num (-122) |} /\
    content doc = lit "7" /\
    spec_validator body_cast = inl "latitude required".
Proof.
  intros Hlat Hlng Hc Hup.
  exists {| _id := oid env;
            position := {| lat := num 45; lng := num (-122) |};
            content := lit "7";
            createdAt := now env;
            __v := 0 |}.
  repeat split.
  rewrite post_markers_eq.
  assert (Hb : build env body_cast
               = inr {| _id := oid env;
                        position := {| lat := num 45; lng := num (-122) |};
                        content := lit "7";
                        createdAt := now env;
                        __v := 0 |}).
  { apply build_valid; cbn [body_cast b_lat b_lng b_content].
    - now rewrite (Number_path_string _ _ _ (num 45)).
    - now rewrite (Number_path_string _ _ _ (num (-122))).
    - rewrite String_path_number, Hc. reflexivity. }
  now rewrite Hb, Hup.
Qed.

(** The handler run alone is its two steps in a row. *)
Lemma post_markers_steps (env : Env) (b : Body) (s : Store) :
  storage env = Up ->
  steps (s, [Received b])
        (snd (post_markers env b s), [Responded (fst (post_markers env b s))]).
Proof.
  intros Hup.
  eapply steps_step; [exact (step_build _ _ s [] [] env b)|].
  rewrite post_markers_eq, Hup. cbn [app].
  destruct (build env b) as [err|doc]; cbn [after_build fst snd].
  - apply steps_refl.
  - eapply steps_step; [exact (step_insert _ _ s [] [] doc)|].
    unfold insertOne. cbn [app].
    destruct (index_conflict doc s); cbn [after_insert fst snd];
      apply steps_refl.
Qed.

(** *** Every interleaving can go on until all have answered *)

Lemma work_middle (hs1 hs2 : list Handler) (h : Handler) :
  work (hs1 ++ h :: hs2) = (work hs1 + pending h + work hs2)%nat.
Proof.
  unfold work. rewrite map_app, list_sum_app. simpl. lia.
Qed.

Lemma step_work (st st' : Store * list Handler) :
  step st st' -> (work (snd st') < work (snd st))%nat.
Proof.
  intros [s hs1 hs2 env b|s hs1 hs2 doc]; cbn [snd];
    rewrite !work_middle.
  - destruct (build env b); cbn; lia.
  - destruct (fst (insertOne Up doc s)); cbn; lia.
Qed.

Lemma not_all_responded (hs : list Handler) :
  forallb responded hs = false ->
  exists hs1 h hs2, hs = hs1 ++ h :: hs2 /\ responded h = false.
Proof.
  induction hs as [|h hs IH]; [discriminate|]. cbn [forallb].
  destruct (responded h) eqn:E.
  - intros H. destruct (IH H) as (hs1 & h' & hs2 & -> & Hh').
    now exists (h :: hs1), h', hs2.
  - intros _. now exists [], h, hs.
Qed.

Lemma step_progress (s : Store) (hs : list Handler) :
  forallb responded hs = false -> exists st', step (s, hs) st'.
Proof.
  intros H. destruct (not_all_responded hs H) as (hs1 & h & hs2 & -> & Hh).
  destruct h as [b|doc|r]; [| |discriminate].
  - eexists. exact (step_build _ _ s hs1 hs2 (env_up 0 0%N) b).
  - eexists. exact (step_insert _ _ s hs1 hs2 doc).
Qed.

Lemma steps_complete (n : nat) (st : Store * list Handler) :
  (work (snd st) <= n)%nat ->
  exists st', steps st st' /\ forallb responded (snd st') = true.
Proof.
  revert st. induction n as [|n IH]; intros [s hs] Hn; cbn [snd] in Hn.
  - exists (s, hs). split; [apply steps_refl|]. cbn [snd].
    destruct (forallb responded hs) eqn:E; [reflexivity|].
    destruct (step_progress s hs E) as (st' & Hstep).
    apply step_work in Hstep. cbn [snd] in Hstep. lia.
  - destruct (forallb responded hs) eqn:E.
    + exists (s, hs). split; [apply steps_refl|exact E].
    + destruct (step_progress s hs E) as (st' & Hstep).
      pose proof (step_work _ _ Hstep) as Hlt. cbn [snd] in Hlt.
      destruct (IH st') as (st'' & Hsteps & Hall); [lia|].
      exists st''. split; [|exact Hall].
      eapply steps_step; eassumption.
Qed.

(** *** Concurrent creations at one position *)

Section SamePosition.

Variable p : Position.

Local Abbreviation aims_at := (aims_at StringToNumber NumberToString p).
Local Abbreviation handler_ok := (handler_ok StringToNumber NumberToString p).
Local Abbreviation race_invariant :=
  (race_invariant StringToNumber NumberToString p).


Lemma wins_middle (hs1 hs2 : list Handler) (h : Handler) :
  wins (hs1 ++ h :: hs2)
  = (wins hs1 + (if succeeded h then 1 else 0) + wins hs2)%nat.
Proof.
  unfold wins. rewrite filter_app, length_app. simpl.
  destruct (succeeded h); simpl; lia.
Qed.

Lemma responded_middle (hs1 hs2 : list Handler) (h : Handler) :
  existsb responded (hs1 ++ h :: hs2)
  = existsb responded hs1 || responded h || existsb responded hs2.
Proof. rewrite existsb_app. simpl. now rewrite orb_assoc. Qed.

Lemma Forall_middle {A : Type} (P : A -> Prop) (l1 l2 : list A) (x : A) :
  Forall P (l1 ++ x :: l2) <-> Forall P l1 /\ P x /\ Forall P l2.
Proof.
  rewrite Forall_app. split.
  - intros [H1 H2]. inversion H2; subst. auto.
  - intros (H1 & Hx & H2). split; [assumption|now constructor].
Qed.

Lemma count_at_positive (s : Store) (m : Marker) :
  In m s -> same_position (position m) p = true -> (1 <= count_at p s)%nat.
Proof.
  unfold count_at. induction s as [|a r IH]; intros Hin Hm;
    [destruct Hin|]. simpl.
  destruct Hin as [->|Hin].
  - rewrite Hm. simpl. lia.
  - destruct (same_position (position a) p); simpl; [lia|now apply IH].
Qed.

Lemma step_race_invariant (n : nat) (st st' : Store * list Handler) :
  step st st' -> race_invariant n st -> race_invariant n st'.
Proof.
  intros Hstep [Hlen Hok Hwins Huniq Hset].
  destruct Hstep as [s hs1 hs2 env b|s hs1 hs2 doc]; cbn [fst snd] in *.
  - apply Forall_middle in Hok as (Hok1 & Hb & Hok2).
    destruct (Hb env) as (doc & -> & Hdoc). cbn [after_build].
    rewrite wins_middle in Hwins. rewrite responded_middle in Hset.
    cbn in Hwins, Hset.
    constructor; cbn [fst snd].
    + rewrite length_app in *. exact Hlen.
    + apply Forall_middle. repeat split; assumption.
    + rewrite wins_middle. exact Hwins.
    + exact Huniq.
    + rewrite responded_middle. exact Hset.
  - apply Forall_middle in Hok as (Hok1 & Hdoc & Hok2). cbn in Hdoc.
    rewrite wins_middle in Hwins. cbn in Hwins.
    unfold insertOne.
    destruct (index_conflict doc s) eqn:Hc; cbn [fst snd after_insert].
    + destruct (index_conflict_true _ _ Hc) as (m & Hin & Hm).
      assert (Hone : count_at p s = 1%nat).
      { pose proof (count_at_positive s m Hin
                      (same_position_trans _ _ _ Hm Hdoc)). lia. }
      constructor; cbn [fst snd].
      * rewrite length_app in *. exact Hlen.
      * apply Forall_middle. repeat split; try assumption.
        right. split; reflexivity.
      * rewrite wins_middle. exact Hwins.
      * exact Huniq.
      * intros _. exact Hone.
    + assert (Hzero : count_at p s = 0%nat).
      { apply count_at_none. intros m Hin.
        destruct (same_position (position m) p) eqn:E; [|reflexivity].
        rewrite <- (index_conflict_false _ _ Hc m Hin). symmetry.
        eapply same_position_trans; [exact E|].
        now rewrite same_position_sym. }
      assert (Hnew : count_at p (s ++ [doc]) = 1%nat).
      { rewrite count_at_app, Hzero. unfold count_at. simpl.
        now rewrite Hdoc. }
      constructor; cbn [fst snd].
      * rewrite length_app in *. exact Hlen.
      * apply Forall_middle. repeat split; try assumption.
        left. split; reflexivity.
      * rewrite wins_middle, Hnew. cbn. lia.
      * lia.
      * intros _. exact Hnew.
Qed.

Lemma steps_race_invariant (n : nat) (st st' : Store * list Handler) :
  steps st st' -> race_invariant n st -> race_invariant n st'.
Proof.
  induction 1 as [st|st1 st2 st3 H12 _ IH]; [trivial|].
  intros Hinv. apply IH. eapply step_race_invariant; eassumption.
Qed.

Lemma wins_received (bs : list Body) : wins (map Received bs) = 0%nat.
Proof. unfold wins. induction bs; simpl; auto. Qed.

Lemma responded_received (bs : list Body) :
  existsb responded (map Received bs) = false.
Proof. induction bs; simpl; auto. Qed.

Lemma all_responded_split (hs : list Handler) :
  Forall handler_ok hs -> forallb responded hs = true ->
  (wins hs + List.length (filter duplicate_key hs) = List.length hs)%nat.
Proof.
  unfold wins. induction 1 as [|h hs Hh Hhs IH]; [reflexivity|].
  cbn [forallb]. rewrite andb_true_iff. intros [Hr Hall].
  specialize (IH Hall). cbn [filter List.length].
  destruct h as [b|doc|r]; try discriminate.
  destruct Hh as [[-> ->]|[-> ->]]; cbn [List.length]; lia.
Qed.

(** C9. Any number of valid create requests for one free position are
    handled concurrently with the storage up, their steps interleaved
    in any order (each insert being one atomic step of the database).
    Some interleaving brings all of them to an answer; no interleaving
    gets stuck before that; and in every interleaving, once all have
    answered, exactly one has answered 201, every other one has
    answered 400 with the duplicate-key error, and the store holds one
    record at that position. *)
Theorem C9_concurrent_creates (bs : list Body) (s0 : Store) :
  bs <> [] ->
  (forall b, In b bs -> aims_at b) ->
  (forall m, In m s0 -> same_position (position m) p = false) ->
  (exists s hs,
      steps (s0, map Received bs) (s, hs) /\ forallb responded hs = true) /\
  (forall s hs,
      steps (s0, map Received bs) (s, hs) ->
      (forallb responded hs = false -> exists st', step (s, hs) st') /\
      (forallb responded hs = true ->
       wins hs = 1%nat /\
       List.length (filter duplicate_key hs) = (List.length bs - 1)%nat /\
       count_at p s = 1%nat)).
Proof.
  intros Hne Haim Hfree. split.
  - destruct (steps_complete (work (map Received bs)) (s0, map Received bs))
      as ([s hs] & Hsteps & Hall); [cbn [snd]; lia|].
    now exists s, hs.
  - intros s hs Hsteps. split; [apply step_progress|]. intros Hall.
    assert (Hinit : race_invariant (List.length bs) (s0, map Received bs)).
    { constructor; cbn [fst snd].
      - apply length_map.
      - apply Forall_forall. intros h Hh.
        apply in_map_iff in Hh as (b & <- & Hb). now apply Haim.
      - rewrite wins_received. symmetry. now apply count_at_none.
      - rewrite (count_at_none _ _ Hfree). lia.
      - rewrite responded_received. discriminate. }
    destruct (steps_race_invariant _ _ _ Hsteps Hinit)
      as [Hlen Hok Hwins Huniq Hset]. cbn [fst snd] in *.
    assert (Hsome : existsb responded hs = true).
    { destruct hs as [|h hs']; [destruct bs; [congruence|discriminate]|].
      cbn in Hall |- *. apply andb_true_iff in Hall as [-> _]. reflexivity. }
    specialize (Hset Hsome).
    pose proof (all_responded_split hs Hok Hall).
    repeat split; lia.
Qed.

End SamePosition.

End Properties.

(* ================================================================== *)
(** ** Further properties of the handlers *)

Lemma in_range_not_nan (lo hi x : number) :
  in_range lo hi x = true -> isNaN x = false.
Proof.
  unfold in_range, ge, le, SFleb. destruct x; try reflexivity.
  destruct lo; discriminate.
Qed.

Lemma insert_desc_oldest (m : Marker) (l : list Marker) :
  Forall (fun x => createdAt m < createdAt x) l ->
  insert_desc m l = l ++ [m].
Proof.
  induction 1 as [|x r Hx Hr IH]; simpl; [reflexivity|].
  destruct (createdAt x <=? createdAt m) eqn:E;
    [apply Z.leb_le in E; lia|].
  now rewrite IH.
Qed.

Lemma sort_desc_rev (s : list Marker) :
  StronglySorted older_first s -> sort_desc s = rev s.
Proof.
  induction 1 as [|a r Hr IH Ha]; simpl; [reflexivity|].
  rewrite IH. apply insert_desc_oldest.
  apply Forall_rev. exact Ha.
Qed.

Lemma older_first_snoc (s : list Marker) (m : Marker) :
  StronglySorted older_first s ->
  Forall (fun x => createdAt x < createdAt m) s ->
  StronglySorted older_first (s ++ [m]).
Proof.
  induction 1 as [|a r Hr IH Ha]; intros Hm; simpl.
  - repeat constructor.
  - inversion Hm as [|? ? Ham Hrm]; subst. constructor.
    + now apply IH.
    + apply Forall_app. split; [assumption|]. now repeat constructor.
Qed.

Lemma combine_snoc {A B : Type} (l : list A) (l' : list B) (a : A) (b : B) :
  List.length l = List.length l' ->
  combine (l ++ [a]) (l' ++ [b]) = combine l l' ++ [(a, b)].
Proof.
  revert l'. induction l as [|x l IH]; intros [|y l'] H;
    try discriminate; [reflexivity|].
  simpl. f_equal. apply IH. now injection H.
Qed.

Lemma map_fst_combine {A B : Type} (l : list A) (l' : list B) :
  List.length l = List.length l' -> map fst (combine l l') = l.
Proof.
  revert l'. induction l as [|x l IH]; intros [|y l'] H;
    try discriminate; [reflexivity|].
  simpl. f_equal. apply IH. now injection H.
Qed.

Lemma Forall2_middle {A B : Type} (R : A -> B -> Prop) (l : list A)
      (l1 l2 : list B) (y : B) :
  Forall2 R l (l1 ++ y :: l2) ->
  exists k1 x k2,
    l = k1 ++ x :: k2 /\ Forall2 R k1 l1 /\ R x y /\ Forall2 R k2 l2.
Proof.
  intros H. apply Forall2_app_inv_r in H as (k1 & k & H1 & H2 & ->).
  inversion H2 as [|x ? k2 ? Hx Hk2]; subst.
  exists k1, x, k2. auto.
Qed.

Lemma eq_same (x : number) : isNaN x = false -> eq x x = true.
Proof.
  unfold eq, SFeqb. destruct x as [[]|[]| |[] m e]; simpl;
    try reflexivity; try discriminate; intros _;
    rewrite Z.compare_refl;
    change (PosDef.Pos.compare_cont Eq m m) with (Pos.compare m m);
    now rewrite Pos.compare_refl.
Qed.

Lemma count_at_most_one (p : Position) (s : Store) :
  unique_index s -> (count_at p s <= 1)%nat.
Proof.
  intros Hu.
  destruct (existsb (fun m => same_position (position m) p) s) eqn:E.
  - apply existsb_exists in E as (m & Hin & Hm).
    now rewrite (count_at_unique p s m Hu Hin Hm).
  - rewrite count_at_none; [lia|]. intros m Hm.
    destruct (same_position (position m) p) eqn:E'; [|reflexivity].
    assert (existsb (fun m => same_position (position m) p) s = true)
      by (apply existsb_exists; eauto).
    congruence.
Qed.

Lemma index_conflict_app (doc : Marker) (s t : Store) :
  index_conflict doc s = true -> index_conflict doc (s ++ t) = true.
Proof.
  unfold index_conflict. intros H. now rewrite existsb_app, H.
Qed.

Section PathValues.

Variable StN : jsstring -> number.
Variable NtS : number -> jsstring.

Lemma Number_path_num (o : NumberOptions) (x : number) :
  Number_path StN o (Num x)
  = if isNaN x then (None, Some (CastFailed "Number" (Num x)))
    else (Some x, Number_doValidate o (Some x)).
Proof.
  unfold Number_path, Number_applySetters, SchemaNumber_cast, castNumber.
  now destruct (isNaN x).
Qed.

Lemma Number_path_value (o : NumberOptions) (v : value) (x : number) :
  Number_path StN o v = (Some x, None) ->
  Number_doValidate o (Some x) = None.
Proof.
  unfold Number_path. destruct (Number_applySetters StN o v) as [r|e].
  - now intros [= -> ->].
  - discriminate.
Qed.

Lemma lat_validators (x : number) :
  Number_doValidate (position_lat markerSchema) (Some x) = None
  <-> in_range (num (-90)) (num 90) x = true.
Proof.
  unfold Number_doValidate, in_range.
  cbn [position_lat markerSchema n_min n_max n_required].
  destruct (ge x (num (-90))), (le x (num 90)); cbn [andb];
    split; congruence.
Qed.

Lemma lng_validators (x : number) :
  Number_doValidate (position_lng markerSchema) (Some x) = None
  <-> in_range (num (-180)) (num 180) x = true.
Proof.
  unfold Number_doValidate, in_range.
  cbn [position_lng markerSchema n_min n_max n_required].
  destruct (ge x (num (-180))), (le x (num 180)); cbn [andb];
    split; congruence.
Qed.

Lemma String_path_str (cs : jsstring) :
  String_path NtS (content_opts markerSchema) (Str cs)
  = (Some (trim cs),
     match trim cs with
     | [] => Some (ValidatorFailed "required" "标注内容不能为空")
     | t => if (List.length t <=? 200)%nat then None
            else Some (ValidatorFailed "maxlength" "内容不能超过200个字符")
     end).
Proof.
  destruct cs as [|c cs]; [reflexivity|].
  unfold String_path, String_applySetters, trim_setter, SchemaString_cast.
  cbn [content_opts markerSchema s_trim castString].
  destruct (trim (c :: cs)) as [|a t]; reflexivity.
Qed.

Lemma content_validators (cs : jsstring) :
  snd (String_path NtS (content_opts markerSchema) (Str cs)) = None
  <-> (1 <= List.length (trim cs) <= 200)%nat.
Proof.
  rewrite String_path_str. cbn [snd].
  destruct (trim cs) as [|a t].
  - cbn. split; [discriminate|lia].
  - destruct (List.length (a :: t) <=? 200)%nat eqn:E.
    + apply Nat.leb_le in E. cbn [List.length] in *. split; [lia|reflexivity].
    + apply Nat.leb_gt in E. split; [discriminate|lia].
Qed.

(** Whether a request passes validation does not depend on what the
    environment gives. *)
Lemma build_inl_env (env env' : Env) (b : Body) (e : error) :
  build StN NtS env b = inl e -> build StN NtS env' b = inl e.
Proof.
  unfold build. destruct (no_errors _); [|trivial].
  destruct (fst (Number_path StN (position_lat markerSchema) (b_lat b))),
    (fst (Number_path StN (position_lng markerSchema) (b_lng b))),
    (fst (String_path NtS (content_opts markerSchema) (b_content b)));
    trivial; discriminate.
Qed.

Lemma build_storage_up (env : Env) (b : Body) :
  build StN NtS (with_storage_up env) b = build StN NtS env b.
Proof. reflexivity. Qed.

Lemma run_sequence_cons (env : Env) (b : Body) (rest : list (Env * Body))
      (s : Store) :
  run_sequence StN NtS ((env, b) :: rest) s
  = (fst (post_markers StN NtS env b s)
       :: fst (run_sequence StN NtS rest (snd (post_markers StN NtS env b s))),
     snd (run_sequence StN NtS rest (snd (post_markers StN NtS env b s)))).
Proof.
  cbn [run_sequence]. destruct (post_markers StN NtS env b s) as [r s'].
  cbn [fst snd]. now destruct (run_sequence StN NtS rest s').
Qed.

Lemma run_sequence_app (reqs reqs' : list (Env * Body)) (s : Store) :
  run_sequence StN NtS (reqs ++ reqs') s
  = (fst (run_sequence StN NtS reqs s)
       ++ fst (run_sequence StN NtS reqs' (snd (run_sequence StN NtS reqs s))),
     snd (run_sequence StN NtS reqs' (snd (run_sequence StN NtS reqs s)))).
Proof.
  revert s. induction reqs as [|[env b] rest IH]; intros s.
  - cbn [app run_sequence fst snd]. now destruct (run_sequence StN NtS reqs' s).
  - rewrite <- app_comm_cons, !run_sequence_cons, IH. reflexivity.
Qed.

Lemma run_sequence_length (reqs : list (Env * Body)) (s : Store) :
  List.length (fst (run_sequence StN NtS reqs s)) = List.length reqs.
Proof.
  revert s. induction reqs as [|[env b] rest IH]; intros s; [reflexivity|].
  rewrite run_sequence_cons. cbn [fst List.length]. now rewrite IH.
Qed.

Lemma run_sequence_snoc (reqs : list (Env * Body)) (env : Env) (b : Body)
      (s : Store) :
  run_sequence StN NtS (reqs ++ [(env, b)]) s
  = (fst (run_sequence StN NtS reqs s)
       ++ [fst (post_markers StN NtS env b (snd (run_sequence StN NtS reqs s)))],
     snd (post_markers StN NtS env b (snd (run_sequence StN NtS reqs s)))).
Proof.
  rewrite run_sequence_app, run_sequence_cons. reflexivity.
Qed.

Lemma answered_app (bs1 bs2 : list Body) (hs1 hs2 : list Handler) :
  List.length bs1 = List.length hs1 ->
  answered (bs1 ++ bs2) (hs1 ++ hs2) = answered bs1 hs1 ++ answered bs2 hs2.
Proof.
  revert hs1. induction bs1 as [|b bs1 IH]; intros [|h hs1] H;
    try discriminate; [reflexivity|].
  injection H as H. cbn [app answered].
  destruct h; rewrite (IH _ H); reflexivity.
Qed.

Lemma answered_received (bs : list Body) :
  answered bs (map Received bs) = [].
Proof. induction bs; simpl; auto. Qed.

Lemma answered_all (bs : list Body) (hs : list Handler) :
  List.length bs = List.length hs -> forallb responded hs = true ->
  map fst (answered bs hs) = bs.
Proof.
  revert hs. induction bs as [|b bs IH]; intros [|h hs] H Hall;
    try discriminate; [reflexivity|].
  injection H as H. cbn [forallb] in Hall.
  apply andb_true_iff in Hall as [Hh Hall].
  destruct h; try discriminate. cbn. f_equal. now apply IH.
Qed.

Lemma stage_of_received (bs : list Body) :
  Forall2 (stage_of StN NtS) bs (map Received bs).
Proof. induction bs; constructor; auto. reflexivity. Qed.

(** A handler that answers puts its request at the end of the
    sequence. *)
Lemma serialized_answer (k1 k2 : list Body) (x : Body)
      (hs1 hs2 : list Handler) (h : Handler) (env : Env)
      (s0 s' : Store) (reqs : list (Env * Body)) (r : Response) :
  responded h = false -> storage env = Up ->
  Forall (fun q => storage (fst q) = Up) reqs ->
  Forall2 (stage_of StN NtS) k1 hs1 -> Forall2 (stage_of StN NtS) k2 hs2 ->
  Permutation (answered (k1 ++ x :: k2) (hs1 ++ h :: hs2))
              (combine (map snd reqs) (fst (run_sequence StN NtS reqs s0))) ->
  post_markers StN NtS env x (snd (run_sequence StN NtS reqs s0)) = (r, s') ->
  serialized StN NtS (k1 ++ x :: k2) s0 (s', hs1 ++ Responded r :: hs2).
Proof.
  intros Hh Hup Hreqs H1 H2 Hperm Hpost.
  pose proof (Forall2_length H1) as L1.
  split; cbn [fst snd].
  - apply Forall2_app; [assumption|]. constructor; [exact I|assumption].
  - exists (reqs ++ [(env, x)]). repeat split.
    + apply Forall_app. split; [assumption|]. now repeat constructor.
    + now rewrite run_sequence_snoc, Hpost.
    + rewrite run_sequence_snoc, Hpost. cbn [fst].
      rewrite map_app. cbn [map snd].
      rewrite combine_snoc
        by now rewrite length_map, run_sequence_length.
      rewrite answered_app by assumption.
      cbn [answered].
      assert (E : answered (x :: k2) (h :: hs2) = answered k2 hs2)
        by (destruct h; [reflexivity|reflexivity|discriminate]).
      rewrite answered_app, E in Hperm by assumption.
      rewrite <- Permutation_cons_append, <- Hperm.
      symmetry. apply Permutation_middle.
Qed.

(** A handler that goes on without answering leaves the sequence as it
    is. *)
Lemma serialized_wait (k1 k2 : list Body) (x : Body)
      (hs1 hs2 : list Handler) (h h' : Handler)
      (s0 : Store) (reqs : list (Env * Body)) :
  responded h = false -> responded h' = false ->
  stage_of StN NtS x h' ->
  Forall (fun q => storage (fst q) = Up) reqs ->
  Forall2 (stage_of StN NtS) k1 hs1 -> Forall2 (stage_of StN NtS) k2 hs2 ->
  Permutation (answered (k1 ++ x :: k2) (hs1 ++ h :: hs2))
              (combine (map snd reqs) (fst (run_sequence StN NtS reqs s0))) ->
  serialized StN NtS (k1 ++ x :: k2) s0
             (snd (run_sequence StN NtS reqs s0), hs1 ++ h' :: hs2).
Proof.
  intros Hh Hh' Hx Hreqs H1 H2 Hperm.
  pose proof (Forall2_length H1) as L1.
  split; cbn [fst snd].
  - apply Forall2_app; [assumption|]. now constructor.
  - exists reqs. repeat split; [assumption|].
    rewrite answered_app in Hperm |- * by assumption.
    assert (E : answered (x :: k2) (h :: hs2) = answered k2 hs2)
      by (destruct h; [reflexivity|reflexivity|discriminate]).
    assert (E' : answered (x :: k2) (h' :: hs2) = answered k2 hs2)
      by (destruct h'; [reflexivity|reflexivity|discriminate]).
    now rewrite E' , <- E.
Qed.



Lemma run_sequence_appends (reqs : list (Env * Body)) (s : Store) :
  exists t, snd (run_sequence StN NtS reqs s) = s ++ t.
Proof.
  revert s. induction reqs as [|[env b] rest IH]; intros s.
  - exists []. now rewrite app_nil_r.
  - rewrite run_sequence_cons. cbn [snd].
    destruct (IH (snd (post_markers StN NtS env b s))) as (t & ->).
    destruct (post_markers_store StN NtS env b s) as [->|(doc & _ & _ & ->)].
    + now exists t.
    + exists (doc :: t). cbn [snd]. now rewrite <- app_assoc.
Qed.

Lemma build_not_nan (env : Env) (b : Body) (doc : Marker) :
  build StN NtS env b = inr doc ->
  isNaN (lat (position doc)) = false /\ isNaN (lng (position doc)) = false.
Proof.
  intros Hb. apply build_inr in Hb as (Hla & Hln & _).
  apply Number_path_value, lat_validators, in_range_not_nan in Hla.
  apply Number_path_value, lng_validators, in_range_not_nan in Hln.
  now split.
Qed.

(** Requests whose three paths come out the same are handled the
    same. *)
Lemma post_markers_paths (env : Env) (b b' : Body) (s : Store) :
  Number_path StN (position_lat markerSchema) (b_lat b)
  = Number_path StN (position_lat markerSchema) (b_lat b') ->
  Number_path StN (position_lng markerSchema) (b_lng b)
  = Number_path StN (position_lng markerSchema) (b_lng b') ->
  String_path NtS (content_opts markerSchema) (b_content b)
  = String_path NtS (content_opts markerSchema) (b_content b') ->
  post_markers StN NtS env b s = post_markers StN NtS env b' s.
Proof.
  intros Hla Hln Hc. rewrite !post_markers_eq.
  assert (E : build StN NtS env b = build StN NtS env b').
  { unfold build, validate. now rewrite Hla, Hln, Hc. }
  now rewrite E.
Qed.

Lemma Number_path_bool (o : NumberOptions) (t : bool) :
  Number_path StN o (Bool t)
  = Number_path StN o (Num (num (if t then 1 else 0))).
Proof. now destruct t. Qed.

Lemma Number_path_empty (o : NumberOptions) :
  Number_path StN o (Str []) = Number_path StN o Null.
Proof. reflexivity. Qed.

End PathValues.

Section FurtherProperties.

Variable StringToNumber : jsstring -> number.
Variable NumberToString : number -> jsstring.

Local Abbreviation validate := (validate StringToNumber NumberToString).
Local Abbreviation build := (build StringToNumber NumberToString).
Local Abbreviation post_markers := (post_markers StringToNumber NumberToString).
Local Abbreviation reachable := (reachable StringToNumber NumberToString).
Local Abbreviation run_sequence := (run_sequence StringToNumber NumberToString).
Local Abbreviation step := (step StringToNumber NumberToString).
Local Abbreviation steps := (steps StringToNumber NumberToString).
Local Abbreviation stage_of := (stage_of StringToNumber NumberToString).

(** The two outcomes of a create. *)
Lemma post_markers_cases (env : Env) (b : Body) (s : Store) :
  (exists doc, post_markers env b s = (res_created doc, s ++ [doc]) /\
               build env b = inr doc) \/
  (exists err, post_markers env b s = (res_fail err, s)).
Proof.
  rewrite post_markers_eq.
  destruct (build env b) as [err|doc] eqn:Hb; [right; eauto|].
  destruct (storage env); [|right; eauto].
  destruct (index_conflict doc s); [right; eauto|].
  left. eauto.
Qed.

(** X1. A create is all or nothing, as the client reads it: either the
    answer has the code 201 and the status "success", the collection
    has grown by exactly one record, at its end, and the marker read
    under [data] in the answer is that record, with the identifier and
    the date of the request and version 0; or the answer has the code
    400, the status "fail", a message and no [data], and the collection
    is as before. *)
Theorem X1_post_all_or_nothing (env : Env) (b : Body) (s : Store) :
  (code (fst (post_markers env b s)) = 201 /\
   json_get "status" (body (fst (post_markers env b s)))
   = Some (JText "success") /\
   exists doc,
     snd (post_markers env b s) = s ++ [doc] /\
     created_marker (fst (post_markers env b s)) = Some (view doc) /\
     _id doc = oid env /\ createdAt doc = now env /\ __v doc = 0) \/
  (code (fst (post_markers env b s)) = 400 /\
   json_get "status" (body (fst (post_markers env b s)))
   = Some (JText "fail") /\
   json_get "data" (body (fst (post_markers env b s))) = None /\
   (exists msg, json_get "message" (body (fst (post_markers env b s)))
                = Some (JMessage msg)) /\
   snd (post_markers env b s) = s).
Proof.
  destruct (post_markers_cases env b s) as [(doc & -> & Hb)|(err & ->)];
    cbn [fst snd].
  - left. repeat split. exists doc.
    apply build_inr in Hb as (_ & _ & _ & Hid & Ht & Hv).
    repeat split; assumption.
  - right. repeat split. now exists (err_message err).
Qed.

(** X2. In every store that the service can reach, each marker has its
    lat in [-90, 90] and its lng in [-180, 180] (bounds included), and
    neither is NaN. *)
Theorem X2_stored_positions_in_range (s : Store) :
  reachable s ->
  Forall (fun m =>
            in_range (num (-90)) (num 90) (lat (position m)) = true /\
            in_range (num (-180)) (num 180) (lng (position m)) = true /\
            isNaN (lat (position m)) = false /\
            isNaN (lng (position m)) = false) s.
Proof.
  induction 1 as [|env b s Hs IH]; [constructor|].
  destruct (post_markers_store StringToNumber NumberToString env b s)
    as [->|(doc & Hb & _ & ->)]; [assumption|].
  cbn [snd]. apply Forall_app. split; [assumption|].
  constructor; [|constructor].
  apply build_inr in Hb as (Hla & Hln & _).
  apply Number_path_value, lat_validators in Hla.
  apply Number_path_value, lng_validators in Hln.
  repeat split; try assumption; eapply in_range_not_nan; eassumption.
Qed.

(** X3. For a request whose lat and lng are numbers and whose content
    is a string, the create answers 201 exactly when lat is in
    [-90, 90], lng is in [-180, 180] (bounds included), the trimmed
    content has 1 to 200 code units, the storage is up and no stored
    marker has that position. *)
Theorem X3_post_accepts_iff (env : Env) (b : Body) (s : Store)
        (x y : number) (cs : jsstring) :
  b_lat b = Num x -> b_lng b = Num y -> b_content b = Str cs ->
  (code (fst (post_markers env b s)) = 201 <->
   in_range (num (-90)) (num 90) x = true /\
   in_range (num (-180)) (num 180) y = true /\
   (1 <= List.length (trim cs) <= 200)%nat /\
   storage env = Up /\
   existsb (fun m => same_position (position m) {| lat := x; lng := y |}) s
   = false).
Proof.
  intros Hx Hy Hc. rewrite post_markers_eq. split.
  - destruct (build env b) as [err|doc] eqn:Hb; [discriminate|].
    apply build_inr in Hb as (Hla & Hln & Hcs & _).
    rewrite Hx in Hla. rewrite Hy in Hln. rewrite Hc in Hcs.
    pose proof (Number_path_value _ _ _ _ Hla) as Vla.
    pose proof (Number_path_value _ _ _ _ Hln) as Vln.
    rewrite Number_path_num in Hla, Hln.
    destruct (isNaN x); [discriminate|]. destruct (isNaN y); [discriminate|].
    injection Hla as Ex _. injection Hln as Ey _.
    assert (Hlen : snd (String_path NumberToString (content_opts markerSchema)
                          (Str cs)) = None) by now rewrite Hcs.
    apply content_validators in Hlen.
    destruct (storage env); [|discriminate].
    unfold index_conflict. destruct doc as [i [la ln] c t v].
    cbn [position lat lng] in *. subst la ln.
    destruct (existsb _ s); [discriminate|].
    intros _. repeat split; try apply Hlen.
    + now apply lat_validators.
    + now apply lng_validators.
  - intros (Rx & Ry & Hlen & Hup & Hfree).
    rewrite (build_valid _ _ env b x y (trim cs)).
    + rewrite Hup. unfold index_conflict. cbn [position].
      now rewrite Hfree.
    + rewrite Hx, Number_path_num, (in_range_not_nan _ _ _ Rx).
      f_equal. now apply lat_validators.
    + rewrite Hy, Number_path_num, (in_range_not_nan _ _ _ Ry).
      f_equal. now apply lng_validators.
    + rewrite Hc.
      pose proof (proj2 (content_validators NumberToString cs) Hlen) as Hv.
      destruct (String_path NumberToString (content_opts markerSchema) (Str cs))
        as [v e] eqn:E.
      rewrite String_path_str in E. injection E as <- _.
      cbn [snd] in Hv. now subst e.
Qed.

(** X4. Validation comes before the storage: when a request is answered
    with a validation error once, it gets that same answer whatever the
    clock, the identifier, the state of the connection and the content
    of the collection, and the collection is never touched. *)
Theorem X4_validation_first (env : Env) (b : Body) (s : Store) (errs : Errors) :
  fst (post_markers env b s) = res_fail (ValidationError errs) ->
  forall env' s',
    post_markers env' b s' = (res_fail (ValidationError errs), s').
Proof.
  rewrite post_markers_eq.
  destruct (build env b) as [err|doc] eqn:Hb.
  - pose proof (build_inl _ _ _ _ _ Hb) as E. subst err.
    cbn [fst]. unfold res_fail at 1 2. cbn [err_message].
    intros [= <-] env' s'.
    now rewrite post_markers_eq, (build_inl_env _ _ env env' b _ Hb).
  - destruct (storage env); [|discriminate].
    destruct (index_conflict doc s); discriminate.
Qed.

(** X5. After a successful create, the listing (storage up) holds the
    markers that were stored before and the created one, each once and
    no other: its data is the stored documents in some order, among
    them the very document that the create answered. *)
Theorem X5_create_then_list (env : Env) (b : Body) (s s' : Store)
        (r : Response) :
  post_markers env b s = (r, s') -> code r = 201 ->
  exists doc l,
    json_get "data" (body r) = Some (toJSON doc) /\
    json_get "data" (body (get_markers Up s')) = Some (JArray (map toJSON l)) /\
    Permutation (doc :: s) l /\
    In (toJSON doc) (map toJSON l) /\
    List.length l = S (List.length s).
Proof.
  intros Hpost Hcode.
  destruct (post_markers_created _ _ _ _ _ _ _ Hpost Hcode)
    as (doc & _ & _ & -> & ->).
  assert (Hperm : Permutation (doc :: s) (sort_desc (s ++ [doc]))).
  { rewrite <- sort_desc_perm. apply Permutation_cons_append. }
  exists doc, (sort_desc (s ++ [doc])). repeat split.
  - exact Hperm.
  - apply in_map. eapply Permutation_in; [exact Hperm|now left].
  - now rewrite <- (Permutation_length Hperm).
Qed.

(** X6. While every stored marker is strictly older than the ones
    stored after it, the listing answers 200 and the markers read under
    [data] in its body are the collection in reverse order of
    insertion; and a create stamped later than every stored marker
    keeps the collection that way. *)
Theorem X6_listing_reverses (s : Store) :
  StronglySorted older_first s ->
  get_markers Up s = res_list (rev s) /\
  code (get_markers Up s) = 200 /\
  listed_markers (get_markers Up s)
  = Some (map (fun m => Some (view m)) (rev s)) /\
  (forall env b,
      (forall m, In m s -> createdAt m < now env) ->
      StronglySorted older_first (snd (post_markers env b s))).
Proof.
  intros Hs. rewrite get_markers_up, (sort_desc_rev s Hs).
  repeat split.
  - apply listed_res_list.
  - intros env b Hlater.
    destruct (post_markers_store StringToNumber NumberToString env b s)
      as [->|(doc & Hb & _ & ->)]; [assumption|].
    cbn [snd]. apply older_first_snoc; [assumption|].
    apply build_inr in Hb as (_ & _ & _ & _ & Ht & _).
    apply Forall_forall. intros m Hm. rewrite Ht. now apply Hlater.
Qed.

(** X7. The service only appends: after any sequence of requests the
    records that were stored are still there, unchanged and at the same
    places, followed by as many new records as there were answers 201;
    there is one answer per request, and a reachable store stays
    reachable. *)
Theorem X7_append_only (reqs : list (Env * Body)) (s : Store) :
  (exists t,
      snd (run_sequence reqs s) = s ++ t /\
      List.length t = count_created (fst (run_sequence reqs s))) /\
  List.length (fst (run_sequence reqs s)) = List.length reqs /\
  (reachable s -> reachable (snd (run_sequence reqs s))).
Proof.
  revert s. induction reqs as [|[env b] rest IH]; intros s.
  - repeat split; [|trivial]. exists []. now rewrite app_nil_r.
  - rewrite run_sequence_cons. cbn [fst snd].
    assert (Hnext : reachable s -> reachable (snd (post_markers env b s)))
      by (intros Hs; now constructor).
    destruct (post_markers_cases env b s) as [(doc & E & _)|(err & E)];
      rewrite E in *; cbn [fst snd] in *;
      destruct (IH (snd (post_markers env b s)))
        as ((t & Et & Ht) & Hlen & Hreach); rewrite E in *; cbn [snd] in *.
    + repeat split.
      * exists (doc :: t). rewrite Et, <- app_assoc. split; [reflexivity|].
        unfold count_created in *. cbn. now rewrite Ht.
      * cbn [List.length]. now rewrite Hlen.
      * auto.
    + repeat split.
      * exists t. split; [exact Et|].
        unfold count_created in *. cbn. exact Ht.
      * cbn [List.length]. now rewrite Hlen.
      * auto.
Qed.


Lemma step_serialized (bs : list Body) (s0 : Store)
      (st st' : Store * list Handler) :
  step st st' -> serialized StringToNumber NumberToString bs s0 st ->
  serialized StringToNumber NumberToString bs s0 st'.
Proof.
  intros Hstep [Hst (reqs & Hreqs & Hs & Hperm)].
  destruct Hstep as [s hs1 hs2 env b|s hs1 hs2 doc]; cbn [fst snd] in *;
    apply Forall2_middle in Hst as (k1 & x & k2 & -> & H1 & Hx & H2);
    subst s.
  - cbn in Hx. subst x.
    destruct (build env b) as [err|doc] eqn:Hb; cbn [after_build].
    + eapply (serialized_answer _ _ k1 k2 b hs1 hs2 (Received b)
                (with_storage_up env)); try eassumption; try reflexivity.
      now rewrite post_markers_eq, build_storage_up, Hb.
    + eapply (serialized_wait _ _ k1 k2 b hs1 hs2 (Received b) (Saving doc));
        try eassumption; try reflexivity.
      now exists env.
  - destruct Hx as (env & Hb). unfold insertOne.
    destruct (index_conflict doc _) eqn:Hc; cbn [fst snd after_insert];
      eapply (serialized_answer _ _ k1 k2 x hs1 hs2 (Saving doc)
                (with_storage_up env)); try eassumption; try reflexivity;
      rewrite post_markers_eq, build_storage_up, Hb;
      cbn [storage with_storage_up]; now rewrite Hc.
Qed.

Lemma steps_serialized (bs : list Body) (s0 : Store)
      (st st' : Store * list Handler) :
  steps st st' -> serialized StringToNumber NumberToString bs s0 st ->
  serialized StringToNumber NumberToString bs s0 st'.
Proof.
  induction 1 as [st|st1 st2 st3 H12 _ IH]; [trivial|].
  intros H. apply IH. eapply step_serialized; eassumption.
Qed.

(** X9. Concurrent creates are serializable: whatever the requests and
    however the steps of their handlers interleave (storage up), the
    collection is at every moment the one that the requests answered so
    far would leave if they ran one after the other in some order, and
    each of them has the answer that it gets in that sequence.  Once
    all have answered, the sequence holds every request exactly once. *)
Theorem X9_interleaving_serializable (bs : list Body) (s0 s : Store)
        (hs : list Handler) :
  steps (s0, map Received bs) (s, hs) ->
  exists reqs,
    Forall (fun q => storage (fst q) = Up) reqs /\
    snd (run_sequence reqs s0) = s /\
    Permutation (answered bs hs)
                (combine (map snd reqs) (fst (run_sequence reqs s0))) /\
    (forallb responded hs = true ->
     map fst (answered bs hs) = bs /\ Permutation bs (map snd reqs)).
Proof.
  intros Hsteps.
  assert (Hinit : serialized StringToNumber NumberToString bs s0
                             (s0, map Received bs)).
  { split; cbn [fst snd]; [apply stage_of_received|].
    exists []. repeat split; [constructor|].
    rewrite answered_received. constructor. }
  destruct (steps_serialized _ _ _ _ Hsteps Hinit)
    as [Hst (reqs & Hreqs & Hs & Hperm)]. cbn [fst snd] in *.
  exists reqs. repeat split; try assumption.
  - apply answered_all; [|assumption]. exact (Forall2_length Hst).
  - intros. rewrite <- (answered_all bs hs (Forall2_length Hst)) at 1
      by assumption.
    rewrite (Permutation_map fst Hperm).
    rewrite map_fst_combine; [reflexivity|].
    now rewrite length_map, run_sequence_length.
Qed.

(** X10. In every store that the service can reach there is at most
    one marker at any position; a successful create brings the number
    of markers at its own position to one and leaves the number at
    every other position as it was. *)
Theorem X10_one_marker_per_position (s : Store) :
  reachable s ->
  (forall p, (count_at p s <= 1)%nat) /\
  (forall env b r s',
      post_markers env b s = (r, s') -> code r = 201 ->
      exists doc,
        r = res_created doc /\
        count_at (position doc) s' = 1%nat /\
        (forall q, same_position (position doc) q = false ->
                   count_at q s' = count_at q s)).
Proof.
  intros Hs. pose proof (reachable_unique_index _ _ s Hs) as Hu. split.
  - intros p. now apply count_at_most_one.
  - intros env b r s' Hpost Hcode.
    destruct (post_markers_created _ _ _ _ _ _ _ Hpost Hcode)
      as (doc & Hb & Hc & -> & ->).
    exists doc. split; [reflexivity|].
    destruct (build_not_nan _ _ _ _ _ Hb) as [Nla Nln].
    split.
    + rewrite count_at_app.
      rewrite (count_at_none _ _ (index_conflict_false _ _ Hc)).
      unfold count_at, same_position. cbn [filter].
      now rewrite !eq_same.
    + intros q Hq. rewrite count_at_app.
      unfold count_at at 2. cbn [filter]. rewrite Hq.
      cbn. lia.
Qed.

(** X11. A position once taken stays taken: when a valid request aims
    at the position of a stored marker, then after any further sequence
    of requests it is still answered 400 with the duplicate-key error
    (storage up), and changes nothing. *)
Theorem X11_position_stays_taken (env : Env) (b : Body) (doc : Marker)
        (s : Store) (reqs : list (Env * Body)) :
  build env b = inr doc -> storage env = Up ->
  index_conflict doc s = true ->
  post_markers env b (snd (run_sequence reqs s))
  = (res_fail (DuplicateKeyError index_name
                 (lat (position doc)) (lng (position doc))),
     snd (run_sequence reqs s)).
Proof.
  intros Hb Hup Hc.
  destruct (run_sequence_appends StringToNumber NumberToString reqs s)
    as (t & ->).
  now rewrite post_markers_eq, Hb, Hup, (index_conflict_app _ _ t Hc).
Qed.

(** X12. Values of another type are cast before anything else, so
    that a request is handled exactly as the request with the cast
    value in its place: a non-empty string in lat or lng as the number
    that [Number] gives for it (when that is not NaN), a boolean there
    as 1 or 0, an empty string there as null, and a number in content
    as the string that [toString] gives for it. *)
Theorem X12_cast_transparent (env : Env) (b : Body) (s : Store) :
  (forall c cs,
      isNaN (StringToNumber (c :: cs)) = false ->
      post_markers env (with_lat (Str (c :: cs)) b) s
      = post_markers env (with_lat (Num (StringToNumber (c :: cs))) b) s) /\
  (forall c cs,
      isNaN (StringToNumber (c :: cs)) = false ->
      post_markers env (with_lng (Str (c :: cs)) b) s
      = post_markers env (with_lng (Num (StringToNumber (c :: cs))) b) s) /\
  (forall t,
      post_markers env (with_lat (Bool t) b) s
      = post_markers env (with_lat (Num (num (if t then 1 else 0))) b) s) /\
  (forall t,
      post_markers env (with_lng (Bool t) b) s
      = post_markers env (with_lng (Num (num (if t then 1 else 0))) b) s) /\
  post_markers env (with_lat (Str []) b) s
  = post_markers env (with_lat Null b) s /\
  post_markers env (with_lng (Str []) b) s
  = post_markers env (with_lng Null b) s /\
  (forall n,
      post_markers env (with_content (Num n) b) s
      = post_markers env (with_content (Str (NumberToString n)) b) s).
Proof.
  repeat match goal with |- _ /\ _ => split end; intros;
    apply post_markers_paths; cbn [with_lat with_lng with_content
                                     b_lat b_lng b_content];
    try reflexivity;
    first [ apply Number_path_bool
          | apply String_path_number
          | rewrite (Number_path_string _ _ _ (StringToNumber (c :: cs)));
            [|discriminate|reflexivity|assumption];
            rewrite Number_path_num;
            match goal with H : isNaN _ = false |- _ => now rewrite H end ].
Qed.

End FurtherProperties.

(* ================================================================== *)
(** ** The theorems on sample requests *)

Lemma C1_unique_position_witness :
  distinct_positions store_hello /\
  (forall env b doc,
      build Decimal.StringToNumber Decimal.NumberToString env b = inr doc ->
      storage env = Up ->
      index_conflict doc store_hello = true ->
      post env b store_hello =
        (res_fail (DuplicateKeyError index_name
                     (lat (position doc)) (lng (position doc))), store_hello)
      /\ count_at (position doc) store_hello = 1%nat).
Proof.
  apply (C1_unique_position Decimal.StringToNumber Decimal.NumberToString).
  exact (reach_post _ _ (env_up 1000 1%N) body_hello [] (reach_empty _ _)).
Defined.

Lemma C2_range_rejected_witness :
  exists errs,
    post (env_up 1000 1%N) body_far store_hello
    = (res_fail (ValidationError errs), store_hello) /\
    err_lat errs = Some (ValidatorFailed "max" "纬度不能大于90").
Proof.
  destruct (C2_range_rejected Decimal.StringToNumber Decimal.NumberToString
              (env_up 1000 1%N) body_far store_hello)
    as (errs & Hpost & _ & Hmax & _).
  - left. exists (num 100). split; [reflexivity|right; reflexivity].
  - exists errs. split; [exact Hpost|].
    apply (Hmax (num 100)); reflexivity.
Defined.

Lemma C7_round_trip_witness :
  exists doc l,
    post (env_up 1000 1%N) body_hello [] = (res_created doc, [] ++ [doc]) /\
    position doc = {| lat := num 45; lng := num (-122) |} /\
    content doc = lit "hello" /\
    get_markers Up ([] ++ [doc]) = res_list l /\ In doc l /\
    created_marker (fst (post (env_up 1000 1%N) body_hello []))
    = Some {| v_id := 1%N; v_lat := num 45; v_lng := num (-122);
              v_content := lit "hello"; v_createdAt := 1000 |} /\
    code (get_markers Up ([] ++ [doc])) = 200 /\
    exists items,
      listed_markers (get_markers Up ([] ++ [doc])) = Some items /\
      In (Some {| v_id := 1%N; v_lat := num 45; v_lng := num (-122);
                  v_content := lit "hello"; v_createdAt := 1000 |}) items.
Proof.
  apply (C7_round_trip Decimal.StringToNumber Decimal.NumberToString
           (env_up 1000 1%N) []).
  - reflexivity.
  - intros m [].
Defined.

Lemma C3_content_trimmed_witness :
  exists doc before after,
    fst (post (env_up 1000 1%N) body_hello []) = res_created doc /\
    store_hello = [] ++ [doc] /\
    content doc = trim (lit " hello ") /\
    (1 <= List.length (trim (lit " hello ")) <= 200)%nat /\
    lit " hello " = before ++ content doc ++ after /\ blank before /\ blank after /\
    (exists c t, content doc = c :: t /\
                 is_whitespace c = false /\
                 is_whitespace (last (content doc) c) = false) /\
    (exists v, created_marker (fst (post (env_up 1000 1%N) body_hello []))
               = Some v /\ v_content v = content doc).
Proof.
  destruct C3_content_trimmed with
    (StringToNumber := Decimal.StringToNumber)
    (NumberToString := Decimal.NumberToString) as [Hcreate _].
  apply (Hcreate (env_up 1000 1%N) body_hello [] _ _ (lit " hello "));
    reflexivity.
Defined.

Lemma C4_list_sorted_witness :
  exists d1 d2 d3,
    fst (post (env_up 1000 1%N) body_hello []) = res_created d1 /\
    fst (post (env_up 2000 2%N) body_one store_hello) = res_created d2 /\
    fst (post (env_up 3000 3%N) body_corner store_two) = res_created d3 /\
    created_marker (fst (post (env_up 1000 1%N) body_hello []))
    = Some (view d1) /\
    created_marker (fst (post (env_up 2000 2%N) body_one store_hello))
    = Some (view d2) /\
    created_marker (fst (post (env_up 3000 3%N) body_corner store_two))
    = Some (view d3) /\
    createdAt d1 = 1000 /\ createdAt d2 = 2000 /\ createdAt d3 = 3000 /\
    get_markers Up store_three = res_list [d3; d2; d1] /\
    code (get_markers Up store_three) = 200 /\
    listed_markers (get_markers Up store_three)
    = Some [Some (view d3); Some (view d2); Some (view d1)].
Proof.
  destruct C4_list_sorted with
    (StringToNumber := Decimal.StringToNumber)
    (NumberToString := Decimal.NumberToString) as [_ Hthree].
  apply (Hthree (env_up 1000 1%N) (env_up 2000 2%N) (env_up 3000 3%N)
           body_hello body_one body_corner
           _ _ _ store_hello store_two store_three);
    try reflexivity; cbn [now env_up]; lia.
Defined.

Lemma C10_cast_accepted_witness :
  exists doc,
    post (env_up 1000 1%N) body_cast [] = (res_created doc, [doc]) /\
    position doc = {| lat := num 45; lng := num (-122) |} /\
    content doc = lit "7" /\
    spec_validator body_cast = inl "latitude required".
Proof.
  apply (C10_cast_accepted Decimal.StringToNumber Decimal.NumberToString
           (env_up 1000 1%N)); reflexivity.
Defined.

Lemma race_interleaved :
  steps Decimal.StringToNumber Decimal.NumberToString race_start race_end.
Proof.
  eapply steps_step;
    [exact (step_build _ _ [] [] [Received body_one] (env_up 1 10%N) body_one)|].
  eapply steps_step;
    [exact (step_build _ _ [] [Saving (doc_one (env_up 1 10%N))] []
              (env_up 2 11%N) body_one)|].
  eapply steps_step;
    [exact (step_insert _ _ [] [Saving (doc_one (env_up 1 10%N))] []
              (doc_one (env_up 2 11%N)))|].
  eapply steps_step;
    [exact (step_insert _ _ [doc_one (env_up 2 11%N)] []
              [Responded (res_created (doc_one (env_up 2 11%N)))]
              (doc_one (env_up 1 10%N)))|].
  apply steps_refl.
Defined.

Lemma C9_concurrent_creates_witness :
  wins (snd race_end) = 1%nat /\
  List.length (filter duplicate_key (snd race_end)) = 1%nat /\
  count_at {| lat := num 1; lng := num 1 |} (fst race_end) = 1%nat.
Proof.
  destruct (C9_concurrent_creates Decimal.StringToNumber Decimal.NumberToString
              {| lat := num 1; lng := num 1 |} [body_one; body_one] [])
    as [_ Hruns].
  - discriminate.
  - intros b [<-|[<-|[]]] env; exists (doc_one env); split; reflexivity.
  - intros m [].
  - destruct (Hruns _ _ race_interleaved) as [_ Hend].
    apply Hend. reflexivity.
Defined.


(** C8, on the code: the marker answered by a successful create has no
    field named [id]; its identifier is under [_id], and it carries the
    version key [__v]. *)
Lemma C8_counterexample :
  exists d,
    json_get "data" (body (fst (post (env_up 1000 1%N) body_hello []))) = Some d /\
    json_get "id" d = None /\
    json_get "_id" d = Some (JObjectId 1%N) /\
    json_get "__v" d = Some (JNumber (num 0)).
Proof. eexists. repeat split. Qed.

Lemma X2_stored_positions_in_range_witness :
  Forall (fun m =>
            in_range (num (-90)) (num 90) (lat (position m)) = true /\
            in_range (num (-180)) (num 180) (lng (position m)) = true /\
            isNaN (lat (position m)) = false /\
            isNaN (lng (position m)) = false) store_hello.
Proof.
  apply (X2_stored_positions_in_range
           Decimal.StringToNumber Decimal.NumberToString).
  exact (reach_post _ _ (env_up 1000 1%N) body_hello [] (reach_empty _ _)).
Defined.

Lemma X3_post_accepts_iff_witness :
  code (fst (post (env_up 2000 2%N) body_corner store_hello)) = 201.
Proof.
  apply (X3_post_accepts_iff Decimal.StringToNumber Decimal.NumberToString
           (env_up 2000 2%N) body_corner store_hello
           (num 90) (num (-180)) (lit "x")
           Logic.eq_refl Logic.eq_refl Logic.eq_refl).
  repeat split; try reflexivity; vm_compute; lia.
Defined.

Lemma X4_validation_first_witness :
  post (env_down 5 7%N "connection lost") body_blank store_hello
  = (res_fail (ValidationError
       {| err_lat := None;
          err_lng := None;
          err_content :=
            Some (ValidatorFailed "required" "标注内容不能为空") |}),
     store_hello).
Proof.
  apply (X4_validation_first Decimal.StringToNumber Decimal.NumberToString
           (env_up 1000 1%N) body_blank []).
  reflexivity.
Defined.

Lemma X5_create_then_list_witness :
  exists doc l,
    json_get "data" (body (fst (post (env_up 2000 2%N) body_one store_hello)))
    = Some (toJSON doc) /\
    json_get "data" (body (get_markers Up store_two))
    = Some (JArray (map toJSON l)) /\
    Permutation (doc :: store_hello) l /\
    In (toJSON doc) (map toJSON l) /\
    List.length l = S (List.length store_hello).
Proof.
  apply (X5_create_then_list Decimal.StringToNumber Decimal.NumberToString
           (env_up 2000 2%N) body_one store_hello store_two).
  - reflexivity.
  - reflexivity.
Defined.

Lemma X6_listing_reverses_witness :
  get_markers Up store_two = res_list (rev store_two) /\
  code (get_markers Up store_two) = 200 /\
  listed_markers (get_markers Up store_two)
  = Some (map (fun m => Some (view m)) (rev store_two)) /\
  (forall env b,
      (forall m, In m store_two -> createdAt m < now env) ->
      StronglySorted older_first (snd (post env b store_two))).
Proof.
  apply (X6_listing_reverses Decimal.StringToNumber Decimal.NumberToString).
  repeat constructor.
Defined.

Lemma X9_interleaving_serializable_witness :
  exists reqs,
    Forall (fun q => storage (fst q) = Up) reqs /\
    snd (run_sequence Decimal.StringToNumber Decimal.NumberToString reqs [])
    = fst race_end /\
    Permutation
      (answered [body_one; body_one] (snd race_end))
      (combine (map snd reqs)
         (fst (run_sequence Decimal.StringToNumber Decimal.NumberToString
                 reqs []))) /\
    (forallb responded (snd race_end) = true ->
     map fst (answered [body_one; body_one] (snd race_end))
     = [body_one; body_one] /\
     Permutation [body_one; body_one] (map snd reqs)).
Proof.
  exact (X9_interleaving_serializable
           Decimal.StringToNumber Decimal.NumberToString
           [body_one; body_one] [] (fst race_end) (snd race_end)
           race_interleaved).
Defined.

Lemma X10_one_marker_per_position_witness :
  (forall p, (count_at p store_hello <= 1)%nat) /\
  (forall env b r s',
      post env b store_hello = (r, s') -> code r = 201 ->
      exists doc,
        r = res_created doc /\
        count_at (position doc) s' = 1%nat /\
        (forall q, same_position (position doc) q = false ->
                   count_at q s' = count_at q store_hello)).
Proof.
  apply (X10_one_marker_per_position
           Decimal.StringToNumber Decimal.NumberToString).
  exact (reach_post _ _ (env_up 1000 1%N) body_hello [] (reach_empty _ _)).
Defined.

Lemma X11_position_stays_taken_witness :
  post (env_up 3000 3%N) body_hello
       (snd (run_sequence Decimal.StringToNumber Decimal.NumberToString
               [(env_up 2000 2%N, body_one)] store_hello))
  = (res_fail (DuplicateKeyError index_name (num 45) (num (-122))),
     snd (run_sequence Decimal.StringToNumber Decimal.NumberToString
            [(env_up 2000 2%N, body_one)] store_hello)).
Proof.
  apply (X11_position_stays_taken
           Decimal.StringToNumber Decimal.NumberToString
           (env_up 3000 3%N) body_hello
           {| _id := 3%N;
              position := {| lat := num 45; lng := num (-122) |};
              content := lit "hello";
              createdAt := 3000;
              __v := 0 |}
           store_hello [(env_up 2000 2%N, body_one)]);
    reflexivity.
Defined.
